(** * Cepton SDK C++ interface: checked errors and capture replay

    A shallow embedding of [cepton_sdk.hpp]: the [SensorError] class with
    its [Used] flag, the [SensorErrorWrapper] context wrapper, the runtime
    assertion macro, and the capture-replay wrappers [get_time], [seek] and
    [seek_relative].

    C++ objects have identity and [SensorError] mutates its [mutable]
    member through [const] references, so objects live in a store indexed
    by address and member functions are computations over that store. *)

From Stdlib Require Import ZArith String Ascii Bool Lia.
From Stdlib Require Import Floats.SpecFloat DecimalString.
From stdpp Require Import gmap.

Local Open Scope Z_scope.

(** ** C strings

    A pointer to [const char] is modelled by the bytes it points at.
    Reading it as a C string (building a [std::string] from it, printing
    it with [%s], testing its first byte) stops at the first NUL byte; a
    buffer without one is read to its end. *)

Definition NUL : ascii := Ascii.zero.

Fixpoint c_str (buf : string) : string :=
  match buf with
  | EmptyString => EmptyString
  | String c rest =>
      if Ascii.eqb c NUL then EmptyString else String c (c_str rest)
  end.

(** The test that the first byte of [p] is NUL. *)
Definition first_is_nul (p : string) : bool :=
  match p with
  | EmptyString => true
  | String c _ => Ascii.eqb c NUL
  end.

Fixpoint nul_free (s : string) : bool :=
  match s with
  | EmptyString => true
  | String c rest => negb (Ascii.eqb c NUL) && nul_free rest
  end.

Definition quote : string := String "034" EmptyString.
Definition newline : string := String "010" EmptyString.
Definition tab : string := String "009" EmptyString.

(** [%i] *)
Definition decimal (n : Z) : string := NilZero.string_of_int (Z.to_int n).

(** ** Single-precision floats *)

Abbreviation float := spec_float (only parsing).

Definition fadd : float -> float -> float := SFadd 24 128.
Definition fmul : float -> float -> float := SFmul 24 128.

(** The literal [1e6f]. *)
Definition f1e6 : float := S754_finite false 16000000 (-4).

(** Numerator and denominator of a finite float [m * 2^e]. *)
Definition float_num (m : positive) (e : Z) : Z := Z.pos m * 2 ^ Z.max e 0.
Definition float_den (e : Z) : Z := 2 ^ Z.max (- e) 0.

(** The value of a finite float, as a fraction. *)
Definition float_value (x : float) : option (Z * Z) :=
  match x with
  | S754_zero _ => Some (0, 1)
  | S754_finite s m e => Some (cond_Zopp s (float_num m e), float_den e)
  | S754_infinity _ | S754_nan => None
  end.

Definition UINT64_MAX : Z := 2 ^ 64 - 1.

(** [uint64_t(x)]: the fractional part is discarded; the conversion is
    undefined ([None]) when the truncated value is not representable. *)
Definition float_to_uint64 (x : float) : option Z :=
  match x with
  | S754_zero _ => Some 0
  | S754_finite s m e =>
      let t := Z.shiftl (Z.pos m) e in
      if s then (if t =? 0 then Some 0 else None)
      else if t <=? UINT64_MAX then Some t else None
  | S754_infinity _ | S754_nan => None
  end.

Definition uint64_add (a b : Z) : Z := (a + b) mod 2 ^ 64.

(** ** Objects *)

Abbreviation addr := nat (only parsing).

(** [SensorError::Used] *)
Record Used : Type := mkUsed { value : bool }.

(** [SensorError]; [what] is the [std::runtime_error] base. *)
Record SensorError : Type := mkSensorError {
  what : string;
  m_code : Z;
  m_msg : string;
  m_used : Used
}.

(** [SensorErrorWrapper]; the member [error] is an object of its own. *)
Record SensorErrorWrapper : Type := mkSensorErrorWrapper {
  context : string;
  error : addr
}.

Definition CEPTON_SUCCESS : Z := 0.

Definition set_value (b : bool) (e : SensorError) : SensorError :=
  {| what := what e; m_code := m_code e; m_msg := m_msg e;
     m_used := {| value := b |} |}.

(** ** The embedded program *)

(** The build configuration and the C interface of [cepton_sdk.h];
    [Driver] is the state held by the library. *)
Class Sdk : Type := {
  CEPTON_ENABLE_EXCEPTIONS : bool;
  FILE : string;
  Driver : Type;
  cepton_get_error_code_name : Z -> string;
  cepton_is_error_code : Z -> Z;
  cepton_is_fault_code : Z -> Z;
  cepton_sdk_get_error : Driver -> Z * string * Driver;
  cepton_sdk_capture_replay_get_start_time : Driver -> Z;
  cepton_sdk_capture_replay_get_position : Driver -> float;
  cepton_sdk_capture_replay_seek : float -> Driver -> Driver
}.

Section Program.

Context {sdk : Sdk}.

Record World : Type := mkWorld {
  objects : gmap addr SensorError;
  stderr : list string;
  driver : Driver
}.

Definition with_objects (o : gmap addr SensorError) (w : World) : World :=
  {| objects := o; stderr := stderr w; driver := driver w |}.
Definition with_stderr (s : list string) (w : World) : World :=
  {| objects := objects w; stderr := s; driver := driver w |}.
Definition with_driver (d : Driver) (w : World) : World :=
  {| objects := objects w; stderr := stderr w; driver := d |}.

(** A call returns, or the process is ended by [std::terminate], or it
    uses an object that does not exist. *)
Inductive Outcome (A : Type) : Type :=
| Returns (a : A) (w : World)
| Terminated (w : World)
| Undefined.
#[global] Arguments Returns {A} a w.
#[global] Arguments Terminated {A} w.
#[global] Arguments Undefined {A}.

Definition M (A : Type) : Type := World -> Outcome A.

#[global] Instance M_ret : MRet M := fun A a w => Returns a w.
#[global] Instance M_bind : MBind M := fun A B f m w =>
  match m w with
  | Returns a w' => f a w'
  | Terminated w' => Terminated w'
  | Undefined => Undefined
  end.

Definition load (a : addr) : M SensorError := fun w =>
  match objects w !! a with
  | Some e => Returns e w
  | None => Undefined
  end.

Definition store (a : addr) (e : SensorError) : M unit := fun w =>
  match objects w !! a with
  | Some _ => Returns tt (with_objects (<[a := e]> (objects w)) w)
  | None => Undefined
  end.

Definition alloc (e : SensorError) : M addr := fun w =>
  let a := fresh (dom (objects w)) in
  Returns a (with_objects (<[a := e]> (objects w)) w).

Definition free (a : addr) : M unit := fun w =>
  Returns tt (with_objects (delete a (objects w)) w).

Definition fprintf_stderr (s : string) : M unit := fun w =>
  Returns tt (with_stderr (stderr w ++ [s]) w).

Definition terminate {A : Type} : M A := fun w => Terminated w.

Definition get_driver : M Driver := fun w => Returns (driver w) w.
Definition put_driver (d : Driver) : M unit := fun w =>
  Returns tt (with_driver d w).

(** *** Runtime assertion *)

Definition assertion_text (file : string) (line : Z)
    (condition msg : string) : string :=
  if first_is_nul msg then
    ("AssertionError (file " ++ quote ++ c_str file ++ quote ++ ", line "
       ++ decimal line ++ ", condition " ++ quote ++ c_str condition
       ++ quote ++ ")" ++ newline)%string
  else
    ("AssertionError (file " ++ quote ++ c_str file ++ quote ++ ", line "
       ++ decimal line ++ ", condition " ++ quote ++ c_str condition
       ++ quote ++ "):" ++ newline ++ tab ++ c_str msg ++ newline)%string.

Definition throw_runtime_assert (file : string) (line : Z)
    (condition msg : string) : M unit :=
  fprintf_stderr (assertion_text file line condition msg);;
  if CEPTON_ENABLE_EXCEPTIONS then terminate else mret tt.

Definition CEPTON_RUNTIME_ASSERT (line : Z) (condition : bool)
    (condition_text msg : string) : M unit :=
  if negb condition then throw_runtime_assert FILE line condition_text msg
  else mret tt.

(** *** Error codes *)

Definition get_error_code_name (error_code : Z) : string :=
  cepton_get_error_code_name error_code.
Definition is_error_code (error_code : Z) : bool :=
  negb (cepton_is_error_code error_code =? 0).
Definition is_fault_code (error_code : Z) : bool :=
  negb (cepton_is_fault_code error_code =? 0).

(** *** [SensorError::Used]

    The flag of the [Used] member of the object at [other] is written
    through the reference; the receiving side starts from, or keeps, its
    own value. *)

Definition Used_default : Used := {| value := false |}.

Definition Used_set (owner : addr) : M unit :=
  e ← load owner; store owner (set_value true e).

Definition Used_copy_ctor (other : addr) : M Used :=
  Used_set other;; mret Used_default.
Definition Used_move_ctor (other : addr) : M Used :=
  Used_set other;; mret Used_default.
Definition Used_copy_assign (this other : addr) : M unit :=
  Used_set other.
Definition Used_move_assign (this other : addr) : M unit :=
  Used_set other.

(** *** [SensorError] *)

Definition create_message (code : Z) (msg : string) : string :=
  if code =? 0 then ""%string
  else
    let code_name := c_str (get_error_code_name code) in
    if first_is_nul msg then code_name
    else (code_name ++ ": " ++ c_str msg)%string.

Definition invalid_code_condition : string :=
  "get_error_code_name(m_code)[0] != '\0'".
Definition not_checked_condition : string := "!m_code || m_used.value".

(** The constructors return the address of the object they build; the
    assertions carry the line of their macro invocation. *)
Definition SensorError_ctor (code_ : Z) (msg_ : string) : M addr :=
  this ← alloc {| what := c_str (create_message code_ msg_);
                  m_code := code_;
                  m_msg := c_str msg_;
                  m_used := Used_default |};
  e ← load this;
  CEPTON_RUNTIME_ASSERT 139
    (negb (first_is_nul (get_error_code_name (m_code e))))
    invalid_code_condition "Invalid error code!";;
  mret this.

Definition SensorError_ctor_code (code_ : Z) : M addr :=
  SensorError_ctor code_ "".
Definition SensorError_ctor_default : M addr :=
  SensorError_ctor_code CEPTON_SUCCESS.

(** The implicit member-wise copy operations. *)
Definition SensorError_copy_ctor (other : addr) : M addr :=
  o ← load other;
  u ← Used_copy_ctor other;
  alloc {| what := what o; m_code := m_code o; m_msg := m_msg o;
           m_used := u |}.

Definition SensorError_copy_assign (this other : addr) : M unit :=
  o ← load other;
  t ← load this;
  store this {| what := what o; m_code := m_code o; m_msg := m_msg o;
                m_used := m_used t |};;
  Used_copy_assign this other.

(** The class declares a destructor, so no move operations are
    generated for it and an rvalue source selects the copy operations. *)
Definition SensorError_move_ctor (other : addr) : M addr :=
  SensorError_copy_ctor other.
Definition SensorError_move_assign (this other : addr) : M unit :=
  SensorError_copy_assign this other.

(** The destructor; the storage is released after its body. *)
Definition SensorError_dtor (this : addr) : M unit :=
  e ← load this;
  CEPTON_RUNTIME_ASSERT 146
    ((m_code e =? 0) || value (m_used e))
    not_checked_condition "Error not checked!";;
  free this.

Definition ignore (this : addr) : M unit := Used_set this.

Definition msg (this : addr) : M string :=
  Used_set this;; e ← load this; mret (m_msg e).

Definition code (this : addr) : M Z :=
  Used_set this;; e ← load this; mret (m_code e).

Definition to_SensorErrorCode (this : addr) : M Z := code this.

Definition to_bool (this : addr) : M bool :=
  c ← code this; mret (negb (c =? 0)).

Definition name (this : addr) : M string :=
  c ← code this; mret (get_error_code_name c).

Definition is_error (this : addr) : M bool :=
  c ← code this; mret (is_error_code c).
Definition is_fault (this : addr) : M bool :=
  c ← code this; mret (is_fault_code c).

(** *** [SensorErrorWrapper] *)

Definition SensorErrorWrapper_ctor (context_ : string)
    : M SensorErrorWrapper :=
  e ← SensorError_ctor_default;
  mret {| context := c_str context_; error := e |}.

Definition SensorErrorWrapper_assign (this : SensorErrorWrapper)
    (error_ : addr) : M unit :=
  b ← to_bool error_;
  if negb b then
    tmp ← SensorError_ctor_default;
    SensorError_copy_assign (error this) tmp;;
    SensorError_dtor tmp
  else
    m ← msg error_;
    let msg := (context this ++ newline ++ tab ++ m)%string in
    c ← code error_;
    tmp ← SensorError_ctor c msg;
    SensorError_copy_assign (error this) tmp;;
    SensorError_dtor tmp.

Definition SensorErrorWrapper_to_bool (this : SensorErrorWrapper) : M bool :=
  to_bool (error this).

(** *** [get_error] and capture replay *)

Definition get_error : M addr :=
  d ← get_driver;
  let '(error_code, error_msg, d') := cepton_sdk_get_error d in
  put_driver d';;
  SensorError_ctor error_code error_msg.

Definition get_start_time (d : Driver) : Z :=
  cepton_sdk_capture_replay_get_start_time d.
Definition get_position (d : Driver) : float :=
  cepton_sdk_capture_replay_get_position d.

Definition get_time (d : Driver) : option Z :=
  t ← float_to_uint64 (fmul f1e6 (get_position d));
  Some (uint64_add (get_start_time d) t).

Definition seek (position : float) : M addr :=
  d ← get_driver;
  put_driver (cepton_sdk_capture_replay_seek position d);;
  get_error.

Definition seek_relative (position : float) : M addr :=
  d ← get_driver;
  let position := fadd position (get_position d) in
  put_driver (cepton_sdk_capture_replay_seek position d);;
  get_error.

End Program.

(** ** What the specification says of [get_time] *)

(** Rounding to the nearest integer, halves upwards. *)
Definition round_half_up (x : float) : option Z :=
  '(n, d) ← float_value x; Some ((2 * n + d) / (2 * d)).

(** [start_time + round(position * 1_000_000)] *)
Definition spec_get_time {sdk : Sdk} (d : Driver) : option Z :=
  t ← round_half_up (fmul f1e6 (get_position d));
  Some (get_start_time d + t).

(** ** Observations on outcomes *)

(** The text written by the assertion in the destructor. *)
Definition not_checked_report {sdk : Sdk} : string :=
  assertion_text FILE 146 not_checked_condition "Error not checked!".

(** The text written by the assertion in the constructor. *)
Definition invalid_code_report {sdk : Sdk} : string :=
  assertion_text FILE 139 invalid_code_condition "Invalid error code!".

(** The object at [a] is replaced by [e]. *)
Definition put {sdk : Sdk} (a : addr) (e : SensorError) (w : World) : World :=
  with_objects (<[a := e]> (objects w)) w.

(** The object at [a] has gone. *)
Definition remove {sdk : Sdk} (a : addr) (w : World) : World :=
  with_objects (delete a (objects w)) w.

Definition report {sdk : Sdk} (s : string) (w : World) : World :=
  with_stderr (stderr w ++ [s]) w.

(** Destroying the object at [a] in [w] returns and writes nothing. *)
Definition destroyed_silently {sdk : Sdk} (a : addr) (w : World) : Prop :=
  SensorError_dtor a w = Returns tt (remove a w).

(** The class invariant on messages: they were read from C strings. *)
Definition msg_is_c_string (e : SensorError) : Prop :=
  nul_free (m_msg e) = true.

(** The address the next object is built at. *)
Definition next_addr {sdk : Sdk} (w : World) : addr :=
  fresh (dom (objects w)).

(** The members as the constructor initialises them. *)
Definition constructed {sdk : Sdk} (code_ : Z) (msg_ : string)
    : SensorError :=
  {| what := c_str (create_message code_ msg_); m_code := code_;
     m_msg := c_str msg_; m_used := Used_default |}.

(** The members of [this] after [this = other]. *)
Definition assigned (this other : SensorError) : SensorError :=
  {| what := what other; m_code := m_code other; m_msg := m_msg other;
     m_used := m_used this |}.

(** The members of a copy of [other]. *)
Definition copied (other : SensorError) : SensorError :=
  {| what := what other; m_code := m_code other; m_msg := m_msg other;
     m_used := Used_default |}.

(** The message and the error a wrapper builds from the error assigned
    to it. *)
Definition wrapped (this : SensorErrorWrapper) (e : SensorError)
    : string :=
  (context this ++ newline ++ tab ++ m_msg e)%string.

Definition wrapped_error {sdk : Sdk} (this : SensorErrorWrapper)
    (e : SensorError) : SensorError :=
  if m_code e =? 0 then constructed CEPTON_SUCCESS ""
  else constructed (m_code e) (wrapped this e).

(** The flag of the object at [a], if there is one. *)
Definition acknowledged {sdk : Sdk} (a : addr) (w : World) : option bool :=
  e ← objects w !! a; Some (value (m_used e)).

(** The ways an error is copied or moved from; an assignment names the
    object assigned to. *)
Inductive Transfer : Type :=
| CopyConstruct
| CopyAssign (this : addr)
| MoveConstruct
| MoveAssign (this : addr).

Definition Used_transfer {sdk : Sdk} (t : Transfer) (other : addr)
    : M unit :=
  match t with
  | CopyConstruct => Used_copy_ctor other;; mret tt
  | CopyAssign this => Used_copy_assign this other
  | MoveConstruct => Used_move_ctor other;; mret tt
  | MoveAssign this => Used_move_assign this other
  end.

Definition SensorError_transfer {sdk : Sdk} (t : Transfer) (other : addr)
    : M unit :=
  match t with
  | CopyConstruct => SensorError_copy_ctor other;; mret tt
  | CopyAssign this => SensorError_copy_assign this other
  | MoveConstruct => SensorError_move_ctor other;; mret tt
  | MoveAssign this => SensorError_move_assign this other
  end.

(** The object a transfer assigns to, if any, exists. *)
Definition target_allocated {sdk : Sdk} (t : Transfer) (w : World) : Prop :=
  match t with
  | CopyAssign this | MoveAssign this => is_Some (objects w !! this)
  | CopyConstruct | MoveConstruct => True
  end.

(** Every message in the store was read from a C string. *)
Definition store_wf {sdk : Sdk} (w : World) : Prop :=
  forall (a : addr) (e : SensorError),
    objects w !! a = Some e -> msg_is_c_string e.

(** [m] keeps [store_wf], and what it returns satisfies [P]. *)
Definition keeps {sdk : Sdk} {A : Type} (P : A -> Prop) (m : M A) : Prop :=
  forall w : World,
    store_wf w ->
    match m w with
    | Returns a w' => store_wf w' /\ P a
    | Terminated w' => store_wf w'
    | Undefined => True
    end.

(** ** A test double for the library *)

Record Replay : Type := mkReplay {
  last_code : Z;
  last_msg : string;
  start_time : Z;
  position : float;
  length : float
}.

Definition replay_name (error_code : Z) : string :=
  if error_code =? 0 then "CEPTON_SUCCESS"
  else if error_code =? -1 then "CEPTON_ERROR_GENERIC"
  else if error_code =? -8 then "CEPTON_ERROR_INVALID_ARGUMENTS"
  else if error_code =? 1 then "CEPTON_FAULT_EXTREME_TEMPERATURE"
  else "".

Definition replay_get_error (d : Replay) : Z * string * Replay :=
  (last_code d, last_msg d,
   {| last_code := 0; last_msg := ""; start_time := start_time d;
      position := position d; length := length d |}).

Definition replay_seek (p : float) (d : Replay) : Replay :=
  if SFleb (S754_zero false) p && SFltb p (length d) then
    {| last_code := last_code d; last_msg := last_msg d;
       start_time := start_time d; position := p; length := length d |}
  else
    {| last_code := -8; last_msg := "Invalid position!";
       start_time := start_time d; position := position d;
       length := length d |}.

Definition test_sdk (exceptions : bool) : Sdk := {|
  CEPTON_ENABLE_EXCEPTIONS := exceptions;
  FILE := "cepton_sdk.hpp";
  Driver := Replay;
  cepton_get_error_code_name := replay_name;
  cepton_is_error_code := fun c => if c <? 0 then 1 else 0;
  cepton_is_fault_code := fun c => if 0 <? c then 1 else 0;
  cepton_sdk_get_error := replay_get_error;
  cepton_sdk_capture_replay_get_start_time := start_time;
  cepton_sdk_capture_replay_get_position := position;
  cepton_sdk_capture_replay_seek := replay_seek
|}.

(** A ten-second capture positioned at 3/256 s. *)
Definition test_replay : Replay :=
  {| last_code := 0; last_msg := ""; start_time := 1600000000000000;
     position := S754_finite false 12582912 (-30);
     length := S754_finite false 10485760 (-20) |}.

(** An unchecked failure at address 0, a checked one at address 1. *)
Definition test_unchecked : SensorError :=
  {| what := "CEPTON_ERROR_GENERIC: boom"; m_code := -1; m_msg := "boom";
     m_used := {| value := false |} |}.

Definition test_checked : SensorError :=
  {| what := "CEPTON_ERROR_INVALID_ARGUMENTS"; m_code := -8; m_msg := "";
     m_used := {| value := true |} |}.

Definition test_world (exceptions : bool) : @World (test_sdk exceptions) :=
  {| objects := <[1%nat := test_checked]> (<[0%nat := test_unchecked]> ∅);
     stderr := [];
     driver := test_replay : @Driver (test_sdk exceptions) |}.


(** ** The rest of the interface *)

(** The library functions behind the wrappers that return an error; what
    they return is not used, the error is read back by [get_error]. *)
Class SdkCalls (sdk : Sdk) : Type := {
  cepton_sdk_deinitialize : Driver -> Driver;
  cepton_sdk_set_control_flags : Z -> Z -> Driver -> Driver;
  cepton_sdk_set_port : Z -> Driver -> Driver;
  cepton_sdk_unlisten_image_frames : Driver -> Driver;
  cepton_sdk_unlisten_network_packet : Driver -> Driver;
  cepton_sdk_clear : Driver -> Driver;
  cepton_sdk_capture_replay_open : string -> Driver -> Driver;
  cepton_sdk_capture_replay_close : Driver -> Driver;
  cepton_sdk_capture_replay_set_enable_loop : Z -> Driver -> Driver;
  cepton_sdk_capture_replay_set_speed : float -> Driver -> Driver;
  cepton_sdk_capture_replay_resume_blocking_once : Driver -> Driver;
  cepton_sdk_capture_replay_resume_blocking : float -> Driver -> Driver;
  cepton_sdk_capture_replay_resume : Driver -> Driver;
  cepton_sdk_capture_replay_pause : Driver -> Driver
}.

Section Interface.

Context {sdk : Sdk} {calls : SdkCalls sdk}.

(** The conversion of a wrapper to a reference to its error. *)
Definition SensorErrorWrapper_to_SensorError (this : SensorErrorWrapper)
    : addr :=
  error this.

Definition deinitialize : M addr :=
  d ← get_driver;
  put_driver (cepton_sdk_deinitialize d);;
  get_error.

Definition set_control_flags (mask flags : Z) : M addr :=
  d ← get_driver;
  put_driver (cepton_sdk_set_control_flags mask flags d);;
  get_error.

Definition set_port (port : Z) : M addr :=
  d ← get_driver;
  put_driver (cepton_sdk_set_port port d);;
  get_error.

Definition unlisten_image_frames : M addr :=
  d ← get_driver;
  put_driver (cepton_sdk_unlisten_image_frames d);;
  get_error.

Definition unlisten_network_packets : M addr :=
  d ← get_driver;
  put_driver (cepton_sdk_unlisten_network_packet d);;
  get_error.

Definition clear : M addr :=
  d ← get_driver;
  put_driver (cepton_sdk_clear d);;
  get_error.

Definition open (path : string) : M addr :=
  d ← get_driver;
  put_driver (cepton_sdk_capture_replay_open (c_str path) d);;
  get_error.

Definition close : M addr :=
  d ← get_driver;
  put_driver (cepton_sdk_capture_replay_close d);;
  get_error.

Definition set_enable_loop (value : bool) : M addr :=
  d ← get_driver;
  put_driver (cepton_sdk_capture_replay_set_enable_loop (Z.b2z value) d);;
  get_error.

Definition set_speed (speed : float) : M addr :=
  d ← get_driver;
  put_driver (cepton_sdk_capture_replay_set_speed speed d);;
  get_error.

Definition resume_blocking_once : M addr :=
  d ← get_driver;
  put_driver (cepton_sdk_capture_replay_resume_blocking_once d);;
  get_error.

Definition resume_blocking (duration : float) : M addr :=
  d ← get_driver;
  put_driver (cepton_sdk_capture_replay_resume_blocking duration d);;
  get_error.

Definition resume : M addr :=
  d ← get_driver;
  put_driver (cepton_sdk_capture_replay_resume d);;
  get_error.

Definition pause : M addr :=
  d ← get_driver;
  put_driver (cepton_sdk_capture_replay_pause d);;
  get_error.

(** The wrappers that return an error, with their arguments. *)
Inductive Call : Type :=
| Deinitialize
| SetControlFlags (mask flags : Z)
| SetPort (port : Z)
| UnlistenImageFrames
| UnlistenNetworkPackets
| Clear
| Open (path : string)
| Close
| Seek (position : float)
| SeekRelative (position : float)
| SetEnableLoop (value : bool)
| SetSpeed (speed : float)
| ResumeBlockingOnce
| ResumeBlocking (duration : float)
| Resume
| Pause.

Definition run_call (c : Call) : M addr :=
  match c with
  | Deinitialize => deinitialize
  | SetControlFlags mask flags => set_control_flags mask flags
  | SetPort port => set_port port
  | UnlistenImageFrames => unlisten_image_frames
  | UnlistenNetworkPackets => unlisten_network_packets
  | Clear => clear
  | Open path => open path
  | Close => close
  | Seek position => seek position
  | SeekRelative position => seek_relative position
  | SetEnableLoop value => set_enable_loop value
  | SetSpeed speed => set_speed speed
  | ResumeBlockingOnce => resume_blocking_once
  | ResumeBlocking duration => resume_blocking duration
  | Resume => resume
  | Pause => pause
  end.

(** What a wrapper has the library do before the error is read back. *)
Definition library_call (c : Call) (d : Driver) : Driver :=
  match c with
  | Deinitialize => cepton_sdk_deinitialize d
  | SetControlFlags mask flags => cepton_sdk_set_control_flags mask flags d
  | SetPort port => cepton_sdk_set_port port d
  | UnlistenImageFrames => cepton_sdk_unlisten_image_frames d
  | UnlistenNetworkPackets => cepton_sdk_unlisten_network_packet d
  | Clear => cepton_sdk_clear d
  | Open path => cepton_sdk_capture_replay_open (c_str path) d
  | Close => cepton_sdk_capture_replay_close d
  | Seek position => cepton_sdk_capture_replay_seek position d
  | SeekRelative position =>
      cepton_sdk_capture_replay_seek (fadd position (get_position d)) d
  | SetEnableLoop value =>
      cepton_sdk_capture_replay_set_enable_loop (Z.b2z value) d
  | SetSpeed speed => cepton_sdk_capture_replay_set_speed speed d
  | ResumeBlockingOnce => cepton_sdk_capture_replay_resume_blocking_once d
  | ResumeBlocking duration =>
      cepton_sdk_capture_replay_resume_blocking duration d
  | Resume => cepton_sdk_capture_replay_resume d
  | Pause => cepton_sdk_capture_replay_pause d
  end.

(** The error the library holds once it has run [c]. *)
Definition error_after (c : Call) (w : World) : Z * string * Driver :=
  cepton_sdk_get_error (library_call c (driver w)).

(** The member functions of [SensorError] that read the object. *)
Inductive Accessor : Type :=
| Ignore
| Msg
| Code
| ToSensorErrorCode
| ToBool
| Name
| IsError
| IsFault.

Definition run_accessor (r : Accessor) (this : addr) : M unit :=
  match r with
  | Ignore => ignore this
  | Msg => msg this;; mret tt
  | Code => code this;; mret tt
  | ToSensorErrorCode => to_SensorErrorCode this;; mret tt
  | ToBool => to_bool this;; mret tt
  | Name => name this;; mret tt
  | IsError => is_error this;; mret tt
  | IsFault => is_fault this;; mret tt
  end.

(** The operations a program has on errors and wrappers. *)
Inductive Op : Type :=
| OpCtor (code_ : Z) (msg_ : string)
| OpCopyCtor (other : addr)
| OpCopyAssign (this other : addr)
| OpDtor (this : addr)
| OpAccess (r : Accessor) (this : addr)
| OpWrapperCtor (context_ : string)
| OpWrapperAssign (this : SensorErrorWrapper) (error_ : addr)
| OpWrapperToBool (this : SensorErrorWrapper)
| OpGetError
| OpCall (c : Call).

Definition run_op (o : Op) : M unit :=
  match o with
  | OpCtor code_ msg_ => SensorError_ctor code_ msg_;; mret tt
  | OpCopyCtor other => SensorError_copy_ctor other;; mret tt
  | OpCopyAssign this other => SensorError_copy_assign this other
  | OpDtor this => SensorError_dtor this
  | OpAccess r this => run_accessor r this
  | OpWrapperCtor context_ => SensorErrorWrapper_ctor context_;; mret tt
  | OpWrapperAssign this error_ => SensorErrorWrapper_assign this error_
  | OpWrapperToBool this => SensorErrorWrapper_to_bool this;; mret tt
  | OpGetError => get_error;; mret tt
  | OpCall c => run_call c;; mret tt
  end.

(** A program: operations one after the other. *)
Fixpoint run_ops (os : list Op) : M unit :=
  match os with
  | [] => mret tt
  | o :: os' => run_op o;; run_ops os'
  end.

(** The operation ends the life of the object at [a]. *)
Definition destroys (o : Op) (a : addr) : Prop :=
  match o with
  | OpDtor this => this = a
  | _ => False
  end.

(** [m] keeps [I], and what it returns satisfies [P]. *)
Definition maintains {A : Type} (I : World -> Prop) (P : A -> Prop)
    (m : M A) : Prop :=
  forall w : World,
    I w ->
    match m w with
    | Returns a w' => I w' /\ P a
    | Terminated w' => I w'
    | Undefined => True
    end.

(** An invariant on the objects of the store: [Q a e] is what it asks of
    an object [e] held at [a], [N e] of the members of a new object, and
    [F a] says that the object at [a] may go. *)
Record ObjectInvariant (I : World -> Prop)
    (Q : addr -> SensorError -> Prop) (N : SensorError -> Prop)
    (F : addr -> Prop) : Prop := {
  oi_objects : forall w w' : World, objects w = objects w' -> I w -> I w';
  oi_lookup : forall (w : World) (a : addr) (e : SensorError),
    I w -> objects w !! a = Some e -> Q a e;
  oi_put : forall (w : World) (a : addr) (e : SensorError),
    I w -> is_Some (objects w !! a) -> Q a e -> I (put a e w);
  oi_new : forall (w : World) (e : SensorError),
    I w -> N e -> I (put (next_addr w) e w) /\ F (next_addr w);
  oi_remove : forall (w : World) (a : addr),
    I w -> F a -> I (remove a w);
  oi_set_value : forall (a : addr) (e : SensorError),
    Q a e -> Q a (set_value true e);
  oi_assigned : forall (a b : addr) (t o : SensorError),
    Q a t -> Q b o -> Q a (assigned t o);
  oi_constructed : forall (code_ : Z) (msg_ : string),
    N (constructed code_ msg_);
  oi_copied : forall (b : addr) (o : SensorError), Q b o -> N (copied o)
}.

End Interface.

(** The test double, continued. *)

Definition replay_fail (c : Z) (m : string) (d : Replay) : Replay :=
  {| last_code := c; last_msg := m; start_time := start_time d;
     position := position d; length := length d |}.

Definition replay_resume_blocking (duration : float) (d : Replay) : Replay :=
  if SFltb duration (S754_zero false) then
    replay_fail (-8) "Negative duration!" d
  else
    {| last_code := last_code d; last_msg := last_msg d;
       start_time := start_time d;
       position := fadd (position d) duration; length := length d |}.

Definition test_calls (exceptions : bool) : SdkCalls (test_sdk exceptions) :=
  Build_SdkCalls (test_sdk exceptions)
    (fun d => d)
    (fun _ _ d => d)
    (fun _ d => d)
    (replay_fail (-1) "No callback registered")
    (replay_fail (-1) "No callback registered")
    (fun d => d)
    (fun path d =>
       if first_is_nul path then replay_fail (-1) "No such file" d else d)
    (fun d => d)
    (fun _ d => d)
    (fun _ d => d)
    (fun d => d)
    replay_resume_blocking
    (fun d => d)
    (fun d => d).

Definition test_success : SensorError :=
  {| what := ""; m_code := 0; m_msg := "";
     m_used := {| value := false |} |}.

(** The test world with a success error at address 2. *)
Definition test_world3 (exceptions : bool) : @World (test_sdk exceptions) :=
  put 2%nat test_success (test_world exceptions).

(** The test world before any object is built. *)
Definition test_world0 (exceptions : bool) : @World (test_sdk exceptions) :=
  with_objects ∅ (test_world exceptions).

(** A capture at its start. *)
Definition test_replay_start : Replay :=
  {| last_code := 0; last_msg := ""; start_time := 1600000000000000;
     position := S754_zero false;
     length := S754_finite false 10485760 (-20) |}.

(** ** C strings *)

Lemma c_str_nul_free (s : string) : nul_free (c_str s) = true.
Proof.
  induction s as [|c s IH]; simpl; [reflexivity|].
  destruct (Ascii.eqb c NUL) eqn:E; simpl; [reflexivity|].
  now rewrite E, IH.
Qed.

Lemma c_str_id (s : string) : nul_free s = true -> c_str s = s.
Proof.
  induction s as [|c s IH]; simpl; [reflexivity|].
  destruct (Ascii.eqb c NUL); simpl; [discriminate|].
  intros H. now rewrite IH.
Qed.

Lemma nul_free_append (s t : string) :
  nul_free (s ++ t)%string = nul_free s && nul_free t.
Proof.
  induction s as [|c s IH]; simpl; [reflexivity|].
  now rewrite IH, andb_assoc.
Qed.

Lemma first_is_nul_c_str (p : string) :
  first_is_nul p = true <-> c_str p = ""%string.
Proof.
  destruct p as [|c p]; simpl; [tauto|].
  destruct (Ascii.eqb c NUL); split; congruence.
Qed.

(** ** The store and the monad *)

Section Store.

Context {sdk : Sdk}.

Lemma bind_Returns {A B : Type} (m : M A) (f : A -> M B) (w w' : World)
    (a : A) :
  m w = Returns a w' -> (m ≫= f) w = f a w'.
Proof. unfold mbind, M_bind. now intros ->. Qed.

Lemma bind_Terminated {A B : Type} (m : M A) (f : A -> M B) (w w' : World) :
  m w = Terminated w' -> (m ≫= f) w = Terminated w'.
Proof. unfold mbind, M_bind. now intros ->. Qed.

Lemma objects_put (a : addr) (e : SensorError) (w : World) :
  objects (put a e w) !! a = Some e.
Proof. apply lookup_insert_eq. Qed.

Lemma objects_put_ne (a b : addr) (e : SensorError) (w : World) :
  a ≠ b -> objects (put a e w) !! b = objects w !! b.
Proof. intros. now apply lookup_insert_ne. Qed.

Lemma put_put (a : addr) (e e' : SensorError) (w : World) :
  put a e (put a e' w) = put a e w.
Proof. unfold put, with_objects; simpl. now rewrite insert_insert_eq. Qed.

Lemma dom_put (a : addr) (e e' : SensorError) (w : World) :
  objects w !! a = Some e' -> dom (objects (put a e w)) = dom (objects w).
Proof.
  intros H. unfold put; simpl. rewrite dom_insert_L.
  apply elem_of_dom_2 in H. apply subseteq_union_1_L.
  now apply singleton_subseteq_l.
Qed.

Lemma fresh_unallocated (w : World) :
  objects w !! fresh (dom (objects w)) = None.
Proof. apply not_elem_of_dom, is_fresh. Qed.

Lemma remove_put_fresh (a : addr) (e : SensorError) (w : World) :
  objects w !! a = None -> remove a (put a e w) = w.
Proof.
  intros H. destruct w as [o s d]. unfold remove, put, with_objects; simpl in *.
  now rewrite delete_insert_eq, delete_id.
Qed.

Lemma put_comm (a b : addr) (e e' : SensorError) (w : World) :
  a ≠ b -> put a e (put b e' w) = put b e' (put a e w).
Proof.
  intros H. unfold put, with_objects; simpl. f_equal.
  now apply insert_insert_ne.
Qed.

Lemma load_spec (a : addr) (e : SensorError) (w : World) :
  objects w !! a = Some e -> load a w = Returns e w.
Proof. unfold load. now intros ->. Qed.

Lemma store_spec (a : addr) (e e' : SensorError) (w : World) :
  objects w !! a = Some e' -> store a e w = Returns tt (put a e w).
Proof. unfold store. now intros ->. Qed.

Lemma Used_set_spec (a : addr) (e : SensorError) (w : World) :
  objects w !! a = Some e ->
  Used_set a w = Returns tt (put a (set_value true e) w).
Proof.
  intros H. unfold Used_set.
  rewrite (bind_Returns _ _ _ _ _ (load_spec _ _ _ H)).
  now apply store_spec with e.
Qed.

Lemma code_spec (a : addr) (e : SensorError) (w : World) :
  objects w !! a = Some e ->
  code a w = Returns (m_code e) (put a (set_value true e) w).
Proof.
  intros H. unfold code.
  rewrite (bind_Returns _ _ _ _ _ (Used_set_spec _ _ _ H)).
  now rewrite (bind_Returns _ _ _ _ _ (load_spec _ _ _ (objects_put _ _ _))).
Qed.

Lemma msg_spec (a : addr) (e : SensorError) (w : World) :
  objects w !! a = Some e ->
  msg a w = Returns (m_msg e) (put a (set_value true e) w).
Proof.
  intros H. unfold msg.
  rewrite (bind_Returns _ _ _ _ _ (Used_set_spec _ _ _ H)).
  now rewrite (bind_Returns _ _ _ _ _ (load_spec _ _ _ (objects_put _ _ _))).
Qed.

Lemma to_bool_spec (a : addr) (e : SensorError) (w : World) :
  objects w !! a = Some e ->
  to_bool a w = Returns (negb (m_code e =? 0)) (put a (set_value true e) w).
Proof.
  intros H. unfold to_bool.
  now rewrite (bind_Returns _ _ _ _ _ (code_spec _ _ _ H)).
Qed.

Lemma dtor_checked (a : addr) (e : SensorError) (w : World) :
  objects w !! a = Some e ->
  (m_code e =? 0) || value (m_used e) = true ->
  SensorError_dtor a w = Returns tt (remove a w).
Proof.
  intros H Hc. unfold SensorError_dtor.
  rewrite (bind_Returns _ _ _ _ _ (load_spec _ _ _ H)).
  unfold CEPTON_RUNTIME_ASSERT. now rewrite Hc.
Qed.

Lemma dtor_unchecked (a : addr) (e : SensorError) (w : World) :
  objects w !! a = Some e ->
  (m_code e =? 0) || value (m_used e) = false ->
  SensorError_dtor a w =
    if CEPTON_ENABLE_EXCEPTIONS then Terminated (report not_checked_report w)
    else Returns tt (remove a (report not_checked_report w)).
Proof.
  intros H Hc. unfold SensorError_dtor.
  rewrite (bind_Returns _ _ _ _ _ (load_spec _ _ _ H)).
  unfold CEPTON_RUNTIME_ASSERT, throw_runtime_assert. rewrite Hc. simpl.
  now destruct CEPTON_ENABLE_EXCEPTIONS.
Qed.

Lemma SensorError_ctor_spec (code_ : Z) (msg_ : string) (w : World) :
  SensorError_ctor code_ msg_ w =
    let a := next_addr w in
    let w' := put a (constructed code_ msg_) w in
    if first_is_nul (get_error_code_name code_) then
      if CEPTON_ENABLE_EXCEPTIONS
      then Terminated (report invalid_code_report w')
      else Returns a (report invalid_code_report w')
    else Returns a w'.
Proof.
  unfold SensorError_ctor.
  rewrite (bind_Returns _ _ w (put (next_addr w) (constructed code_ msg_) w)
             (next_addr w)) by reflexivity.
  rewrite (bind_Returns _ _ _ _ _ (load_spec _ _ _ (objects_put _ _ _))).
  unfold CEPTON_RUNTIME_ASSERT, throw_runtime_assert; simpl.
  destruct (first_is_nul (get_error_code_name code_)); simpl; [|reflexivity].
  now destruct CEPTON_ENABLE_EXCEPTIONS.
Qed.

Lemma SensorError_copy_ctor_spec (other : addr) (o : SensorError)
    (w : World) :
  objects w !! other = Some o ->
  SensorError_copy_ctor other w =
    Returns (next_addr w)
      (put (next_addr w) (copied o) (put other (set_value true o) w)).
Proof.
  intros H. unfold SensorError_copy_ctor, Used_copy_ctor.
  rewrite (bind_Returns _ _ _ _ _ (load_spec _ _ _ H)).
  rewrite (bind_Returns _ _ w (put other (set_value true o) w) Used_default).
  - unfold alloc, next_addr. now rewrite (dom_put _ _ _ _ H).
  - now rewrite (bind_Returns _ _ _ _ _ (Used_set_spec _ _ _ H)).
Qed.

Lemma SensorError_copy_assign_spec (this other : addr) (t o : SensorError)
    (w : World) :
  objects w !! this = Some t ->
  objects w !! other = Some o ->
  SensorError_copy_assign this other w =
    Returns tt (put other (set_value true o) (put this (assigned t o) w)).
Proof.
  intros Ht Ho. unfold SensorError_copy_assign, Used_copy_assign.
  rewrite (bind_Returns _ _ _ _ _ (load_spec _ _ _ Ho)).
  rewrite (bind_Returns _ _ _ _ _ (load_spec _ _ _ Ht)).
  rewrite (bind_Returns _ _ _ _ _ (store_spec _ _ _ _ Ht)).
  fold (assigned t o).
  destruct (decide (this = other)) as [->|Hne].
  - now rewrite (Used_set_spec _ _ _ (objects_put _ _ _)).
  - rewrite (Used_set_spec other o); [reflexivity|].
    now rewrite objects_put_ne.
Qed.

Lemma put_report (a : addr) (e : SensorError) (r : string) (w : World) :
  put a e (report r w) = report r (put a e w).
Proof. reflexivity. Qed.

Lemma remove_report (a : addr) (r : string) (w : World) :
  remove a (report r w) = report r (remove a w).
Proof. reflexivity. Qed.

Lemma next_addr_unallocated (w : World) : objects w !! next_addr w = None.
Proof. apply fresh_unallocated. Qed.

Lemma next_addr_ne (a : addr) (e : SensorError) (w : World) :
  objects w !! a = Some e -> next_addr w ≠ a.
Proof.
  intros H E. rewrite <- E in H. now rewrite next_addr_unallocated in H.
Qed.

Lemma next_addr_put (a : addr) (e e' : SensorError) (w : World) :
  objects w !! a = Some e' -> next_addr (put a e w) = next_addr w.
Proof. intros H. unfold next_addr. now rewrite (dom_put _ _ _ _ H). Qed.

(** A temporary is assigned to the object at [this] and destroyed: what
    is left is the store with the object at [this] overwritten. *)
Lemma temporary_assigned (this tmp : addr) (t e : SensorError) (w : World) :
  objects w !! this = Some t ->
  objects w !! tmp = None ->
  (SensorError_copy_assign this tmp;; SensorError_dtor tmp) (put tmp e w) =
    Returns tt (put this (assigned t e) w).
Proof.
  intros Ht Hn.
  assert (Hne : tmp ≠ this) by (intros ->; congruence).
  assert (Ht' : objects (put tmp e w) !! this = Some t)
    by now rewrite objects_put_ne.
  rewrite (bind_Returns _ _ _ _ _
             (SensorError_copy_assign_spec this tmp t e _ Ht'
                (objects_put _ _ _))).
  rewrite (dtor_checked tmp (set_value true e)).
  - f_equal. rewrite (put_comm this tmp), put_put by congruence.
    apply remove_put_fresh.
    now rewrite objects_put_ne by congruence.
  - apply objects_put.
  - simpl. apply orb_true_r.
Qed.

Lemma temporary_constructed_assigned (this : addr) (t : SensorError)
    (code_ : Z) (msg_ : string) (w : World) :
  objects w !! this = Some t ->
  (tmp ← SensorError_ctor code_ msg_;
   SensorError_copy_assign this tmp;; SensorError_dtor tmp) w =
    let e := constructed code_ msg_ in
    if first_is_nul (get_error_code_name code_) then
      if CEPTON_ENABLE_EXCEPTIONS
      then Terminated (report invalid_code_report (put (next_addr w) e w))
      else Returns tt (report invalid_code_report (put this (assigned t e) w))
    else Returns tt (put this (assigned t e) w).
Proof.
  intros Ht. simpl.
  pose proof (SensorError_ctor_spec code_ msg_ w) as Hc. simpl in Hc.
  destruct (first_is_nul (get_error_code_name code_)).
  - destruct CEPTON_ENABLE_EXCEPTIONS.
    + now rewrite (bind_Terminated _ _ _ _ Hc).
    + rewrite (bind_Returns _ _ _ _ _ Hc), <- put_report.
      rewrite (temporary_assigned this (next_addr w) t _
                 (report invalid_code_report w)).
      * reflexivity.
      * assumption.
      * exact (next_addr_unallocated w).
  - rewrite (bind_Returns _ _ _ _ _ Hc).
    apply temporary_assigned; [assumption|apply next_addr_unallocated].
Qed.

Lemma SensorErrorWrapper_assign_spec (this : SensorErrorWrapper)
    (error_ : addr) (e t : SensorError) (w : World) :
  objects w !! error_ = Some e ->
  objects (put error_ (set_value true e) w) !! error this = Some t ->
  SensorErrorWrapper_assign this error_ w =
    let w1 := put error_ (set_value true e) w in
    let n := wrapped_error this e in
    if first_is_nul (get_error_code_name (m_code e)) then
      if CEPTON_ENABLE_EXCEPTIONS
      then Terminated (report invalid_code_report (put (next_addr w) n w1))
      else Returns tt (report invalid_code_report
                         (put (error this) (assigned t n) w1))
    else Returns tt (put (error this) (assigned t n) w1).
Proof.
  intros He Ht. unfold SensorErrorWrapper_assign.
  rewrite (bind_Returns _ _ _ _ _ (to_bool_spec _ _ _ He)).
  rewrite negb_involutive. unfold wrapped_error. simpl.
  destruct (m_code e =? 0) eqn:Ec.
  - apply Z.eqb_eq in Ec.
    unfold SensorError_ctor_default, SensorError_ctor_code.
    rewrite (temporary_constructed_assigned _ t) by assumption.
    simpl. rewrite Ec, (next_addr_put _ _ _ _ He). reflexivity.
  - pose proof (objects_put error_ (set_value true e) w) as He1.
    rewrite (bind_Returns _ _ _ _ _ (msg_spec _ _ _ He1)).
    change (set_value true (set_value true e)) with (set_value true e).
    rewrite put_put.
    rewrite (bind_Returns _ _ _ _ _ (code_spec _ _ _ He1)).
    change (set_value true (set_value true e)) with (set_value true e).
    rewrite put_put. simpl.
    rewrite (temporary_constructed_assigned _ t) by assumption.
    simpl. rewrite (next_addr_put _ _ _ _ He). reflexivity.
Qed.

Lemma constructed_is_c_string (code_ : Z) (msg_ : string) :
  msg_is_c_string (constructed code_ msg_).
Proof. apply c_str_nul_free. Qed.

Lemma assigned_is_c_string (t o : SensorError) :
  msg_is_c_string o -> msg_is_c_string (assigned t o).
Proof. exact (fun H => H). Qed.

Lemma copied_is_c_string (o : SensorError) :
  msg_is_c_string o -> msg_is_c_string (copied o).
Proof. exact (fun H => H). Qed.

Lemma set_value_is_c_string (b : bool) (e : SensorError) :
  msg_is_c_string e -> msg_is_c_string (set_value b e).
Proof. exact (fun H => H). Qed.

Lemma wrapped_is_c_string (this : SensorErrorWrapper) (e : SensorError) :
  nul_free (context this) = true -> msg_is_c_string e ->
  c_str (wrapped this e) = wrapped this e.
Proof.
  intros Hc He. apply c_str_id. unfold wrapped.
  rewrite !nul_free_append, Hc, He. reflexivity.
Qed.

Lemma SensorErrorWrapper_ctor_context (context_ : string) (w w' : World)
    (this : SensorErrorWrapper) :
  SensorErrorWrapper_ctor context_ w = Returns this w' ->
  nul_free (context this) = true /\ context this = c_str context_.
Proof.
  unfold SensorErrorWrapper_ctor, SensorError_ctor_default,
    SensorError_ctor_code.
  unfold mbind at 1, M_bind. rewrite SensorError_ctor_spec. simpl.
  destruct (first_is_nul _); [destruct CEPTON_ENABLE_EXCEPTIONS|];
    try discriminate; intros [= <- _]; simpl;
    split; try reflexivity; apply c_str_nul_free.
Qed.

End Store.

(** ** The invariant on messages *)

Section Invariant.

Context {sdk : Sdk}.

Lemma store_wf_put (a : addr) (e : SensorError) (w : World) :
  store_wf w -> msg_is_c_string e -> store_wf (put a e w).
Proof.
  intros Hw He b x. unfold put; simpl. rewrite lookup_insert.
  case_decide; [now intros [= <-]|apply Hw].
Qed.

Lemma store_wf_remove (a : addr) (w : World) :
  store_wf w -> store_wf (remove a w).
Proof.
  intros Hw b x. unfold remove; simpl. rewrite lookup_delete.
  case_decide; [discriminate|apply Hw].
Qed.

Lemma keeps_ret {A : Type} (P : A -> Prop) (a : A) :
  P a -> keeps P (mret a).
Proof. intros H w Hw. now split. Qed.

Lemma keeps_bind {A B : Type} (P : A -> Prop) (Q : B -> Prop) (m : M A)
    (f : A -> M B) :
  keeps P m -> (forall a : A, P a -> keeps Q (f a)) -> keeps Q (m ≫= f).
Proof.
  intros Hm Hf w Hw. specialize (Hm w Hw). unfold mbind, M_bind.
  destruct (m w) as [a w'| |]; [|assumption|exact I].
  destruct Hm as [Hw' Ha]. exact (Hf a Ha w' Hw').
Qed.

Lemma keeps_weaken {A : Type} (P Q : A -> Prop) (m : M A) :
  (forall a : A, P a -> Q a) -> keeps P m -> keeps Q m.
Proof.
  intros H Hm w Hw. specialize (Hm w Hw).
  destruct (m w); [|assumption|exact I]. split; [apply Hm|apply H, Hm].
Qed.

Lemma keeps_load (a : addr) : keeps msg_is_c_string (load a).
Proof.
  intros w Hw. unfold load. destruct (objects w !! a) eqn:E; [|exact I].
  split; [assumption|now apply (Hw a)].
Qed.

Lemma keeps_store (a : addr) (e : SensorError) :
  msg_is_c_string e -> keeps (fun _ => True) (store a e).
Proof.
  intros He w Hw. unfold store. destruct (objects w !! a); [|exact I].
  split; [now apply store_wf_put|exact I].
Qed.

Lemma keeps_alloc (e : SensorError) :
  msg_is_c_string e -> keeps (fun _ => True) (alloc e).
Proof. intros He w Hw. split; [now apply store_wf_put|exact I]. Qed.

Lemma keeps_free (a : addr) : keeps (fun _ => True) (free a).
Proof. intros w Hw. split; [now apply store_wf_remove|exact I]. Qed.

Lemma keeps_assert (line : Z) (condition : bool) (text m : string) :
  keeps (fun _ => True) (CEPTON_RUNTIME_ASSERT line condition text m).
Proof.
  intros w Hw. unfold CEPTON_RUNTIME_ASSERT, throw_runtime_assert.
  destruct condition; simpl; [now split|].
  unfold mbind, M_bind, fprintf_stderr.
  destruct CEPTON_ENABLE_EXCEPTIONS; simpl; [exact Hw|now split].
Qed.

Lemma keeps_Used_set (a : addr) : keeps (fun _ => True) (Used_set a).
Proof.
  apply keeps_bind with msg_is_c_string; [apply keeps_load|].
  intros e He. now apply keeps_store.
Qed.

Lemma keeps_msg (a : addr) :
  keeps (fun m : string => nul_free m = true) (msg a).
Proof.
  apply keeps_bind with (fun _ => True); [apply keeps_Used_set|].
  intros _ _. apply keeps_bind with msg_is_c_string; [apply keeps_load|].
  intros e He. now apply keeps_ret.
Qed.

Lemma keeps_code (a : addr) : keeps (fun _ => True) (code a).
Proof.
  apply keeps_bind with (fun _ => True); [apply keeps_Used_set|].
  intros _ _. apply keeps_bind with msg_is_c_string; [apply keeps_load|].
  intros e He. now apply keeps_ret.
Qed.

Lemma keeps_ctor (code_ : Z) (msg_ : string) :
  keeps (fun _ => True) (SensorError_ctor code_ msg_).
Proof.
  apply keeps_bind with (fun _ => True).
  { apply keeps_alloc. apply c_str_nul_free. }
  intros this _. apply keeps_bind with msg_is_c_string; [apply keeps_load|].
  intros e _. apply keeps_bind with (fun _ => True); [apply keeps_assert|].
  intros _ _. now apply keeps_ret.
Qed.

Lemma keeps_copy_ctor (other : addr) :
  keeps (fun _ => True) (SensorError_copy_ctor other).
Proof.
  apply keeps_bind with msg_is_c_string; [apply keeps_load|].
  intros o Ho. apply keeps_bind with (fun _ => True).
  { apply keeps_bind with (fun _ => True); [apply keeps_Used_set|].
    intros _ _. now apply keeps_ret. }
  intros u _. now apply keeps_alloc.
Qed.

Lemma keeps_copy_assign (this other : addr) :
  keeps (fun _ => True) (SensorError_copy_assign this other).
Proof.
  apply keeps_bind with msg_is_c_string; [apply keeps_load|].
  intros o Ho. apply keeps_bind with msg_is_c_string; [apply keeps_load|].
  intros t _. apply keeps_bind with (fun _ => True);
    [now apply keeps_store|].
  intros _ _. apply keeps_Used_set.
Qed.

Lemma keeps_dtor (this : addr) : keeps (fun _ => True) (SensorError_dtor this).
Proof.
  apply keeps_bind with msg_is_c_string; [apply keeps_load|].
  intros e _. apply keeps_bind with (fun _ => True); [apply keeps_assert|].
  intros _ _. apply keeps_free.
Qed.

Lemma keeps_temporary (this : addr) (code_ : Z) (msg_ : string) :
  keeps (fun _ => True)
    (tmp ← SensorError_ctor code_ msg_;
     SensorError_copy_assign this tmp;; SensorError_dtor tmp).
Proof.
  apply keeps_bind with (fun _ => True); [apply keeps_ctor|].
  intros tmp _. apply keeps_bind with (fun _ => True);
    [apply keeps_copy_assign|].
  intros _ _. apply keeps_dtor.
Qed.

(** With the lemmas above: every operation of the two classes keeps the
    invariant. *)
Lemma keeps_wrapper_assign (this : SensorErrorWrapper) (error_ : addr) :
  keeps (fun _ => True) (SensorErrorWrapper_assign this error_).
Proof.
  apply keeps_bind with (fun _ => True).
  { apply keeps_bind with (fun _ => True); [apply keeps_code|].
    intros c _. now apply keeps_ret. }
  intros b _. destruct (negb b); [apply keeps_temporary|].
  apply keeps_bind with (fun _ => True).
  { apply keeps_weaken with (2 := keeps_msg error_). now intros. }
  intros m _. apply keeps_bind with (fun _ => True); [apply keeps_code|].
  intros c _. apply keeps_temporary.
Qed.

Lemma keeps_get_error : keeps (fun _ => True) get_error.
Proof.
  intros w Hw. unfold get_error, mbind, M_bind, get_driver.
  destruct (cepton_sdk_get_error (driver w)) as [[c m] d'].
  exact (keeps_ctor c m (with_driver d' w) Hw).
Qed.

End Invariant.

(** ** Floats *)

Lemma fadd_comm (x y : float) : fadd x y = fadd y x.
Proof.
  unfold fadd.
  destruct x as [sx|sx| |sx mx ex], y as [sy|sy| |sy my ey];
    try reflexivity; try (destruct sx, sy; reflexivity).
  unfold SFadd. now rewrite Z.min_comm, Z.add_comm.
Qed.

Lemma float_den_pos (e : Z) : 0 < float_den e.
Proof. unfold float_den. apply Z.pow_pos_nonneg; lia. Qed.

Lemma float_num_pos (m : positive) (e : Z) : 0 < float_num m e.
Proof.
  unfold float_num. apply Z.mul_pos_pos; [lia|].
  apply Z.pow_pos_nonneg; lia.
Qed.

Lemma shiftl_truncates (m : positive) (e : Z) :
  Z.shiftl (Z.pos m) e = float_num m e / float_den e.
Proof.
  unfold float_num, float_den. destruct (Z.le_gt_cases 0 e) as [H|H].
  - rewrite Z.max_l, Z.max_r by lia. rewrite Z.shiftl_mul_pow2 by lia.
    now rewrite Z.pow_0_r, Z.div_1_r.
  - rewrite Z.max_r, Z.max_l by lia.
    rewrite <- (Z.opp_involutive e) at 1.
    rewrite Z.shiftl_opp_r, Z.shiftr_div_pow2 by lia.
    now rewrite Z.pow_0_r, Z.mul_1_r.
Qed.

Lemma floor_unique (n d t : Z) :
  0 < d -> d * t <= n < d * (t + 1) -> n / d = t.
Proof.
  intros Hd H. symmetry. apply Z.div_unique with (n - d * t); lia.
Qed.

Lemma float_to_uint64_floor (x : float) (n d t : Z) :
  float_value x = Some (n, d) ->
  d * t <= n < d * (t + 1) ->
  0 <= n -> t <= UINT64_MAX ->
  float_to_uint64 x = Some t.
Proof.
  destruct x as [s|s| |s m e]; simpl; try discriminate.
  - intros [= <- <-] H _ _. f_equal. lia.
  - intros [= <- <-] H Hn Ht.
    pose proof (float_num_pos m e) as Hp.
    destruct s; simpl in *; [lia|].
    rewrite shiftl_truncates, (floor_unique _ _ t (float_den_pos e) H).
    apply Z.leb_le in Ht. now rewrite Ht.
Qed.

(** ** The checked error *)

Section CheckedError.

Context {sdk : Sdk}.

Lemma report_changes_stderr (r : string) (a : addr) (w : World) :
  remove a (report r w) ≠ remove a w.
Proof.
  intros E. apply (f_equal stderr) in E. simpl in E.
  apply (f_equal List.length) in E. rewrite length_app in E. simpl in E.
  lia.
Qed.

Lemma unchecked_iff (e : SensorError) :
  (m_code e =? 0) || value (m_used e) = false <->
  m_code e ≠ 0 /\ value (m_used e) = false.
Proof.
  rewrite orb_false_iff, Z.eqb_neq. tauto.
Qed.

Lemma not_checked_report_text :
  not_checked_report =
    ("AssertionError (file " ++ quote ++ c_str FILE ++ quote
       ++ ", line 146, condition " ++ quote ++ "!m_code || m_used.value"
       ++ quote ++ "):" ++ newline ++ tab ++ "Error not checked!"
       ++ newline)%string.
Proof. reflexivity. Qed.

Lemma invalid_code_report_text :
  invalid_code_report =
    ("AssertionError (file " ++ quote ++ c_str FILE ++ quote
       ++ ", line 139, condition " ++ quote ++ invalid_code_condition
       ++ quote ++ "):" ++ newline ++ tab ++ "Invalid error code!"
       ++ newline)%string.
Proof. reflexivity. Qed.

(** C1. Destroying a [SensorError] takes the "Error not checked!"
    assertion path exactly when its code is not success and its flag is
    unset. On that path one report is written, and the process is ended
    in a build with exceptions and goes on otherwise. A success value, a
    value with its flag set and a default-constructed value are destroyed
    without a report. *)
Theorem dtor_reports_unchecked_only (a : addr) (e : SensorError)
    (w : World) :
  objects w !! a = Some e ->
  (m_code e ≠ 0 /\ value (m_used e) = false ->
     SensorError_dtor a w =
       if CEPTON_ENABLE_EXCEPTIONS
       then Terminated (report not_checked_report w)
       else Returns tt (remove a (report not_checked_report w))) /\
  (m_code e = 0 \/ value (m_used e) = true -> destroyed_silently a w) /\
  (destroyed_silently a w <->
     ¬ (m_code e ≠ 0 /\ value (m_used e) = false)) /\
  (forall w0 : World,
     SensorError_ctor_default w0 = Returns a w -> destroyed_silently a w).
Proof.
  intros H.
  assert (Hs : m_code e = 0 \/ value (m_used e) = true ->
               destroyed_silently a w).
  { intros Hc. apply (dtor_checked a e w H).
    apply orb_true_iff. rewrite Z.eqb_eq. exact Hc. }
  assert (Hu : m_code e ≠ 0 /\ value (m_used e) = false ->
     SensorError_dtor a w =
       if CEPTON_ENABLE_EXCEPTIONS
       then Terminated (report not_checked_report w)
       else Returns tt (remove a (report not_checked_report w))).
  { intros Hc. apply (dtor_unchecked a e w H). now apply unchecked_iff. }
  repeat split; try assumption.
  - intros Hd Hc. unfold destroyed_silently in Hd. rewrite (Hu Hc) in Hd.
    destruct CEPTON_ENABLE_EXCEPTIONS; [discriminate|].
    apply (report_changes_stderr not_checked_report a w). congruence.
  - intros Hn. apply Hs.
    destruct (Z.eq_dec (m_code e) 0); [now left|].
    destruct (value (m_used e)); [now right|]. now destruct Hn.
  - intros w0 Hd. apply Hs. left.
    unfold SensorError_ctor_default, SensorError_ctor_code in Hd.
    rewrite SensorError_ctor_spec in Hd. simpl in Hd.
    destruct (first_is_nul _); [destruct CEPTON_ENABLE_EXCEPTIONS|];
      try discriminate; injection Hd as <- <-;
      unfold report, put, with_stderr, with_objects in H; simpl in H;
      rewrite lookup_insert_eq in H; injection H as <-; reflexivity.
Qed.

(** C5. [code], [msg] and the conversion to [bool] set the flag of the
    object they read; [code] returns the wrapped code, [msg] the stored
    message, and the conversion is true exactly for a code that is not
    success. *)
Theorem reading_acknowledges (a : addr) (e : SensorError) (w : World) :
  objects w !! a = Some e ->
  let w' := put a (set_value true e) w in
  code a w = Returns (m_code e) w' /\
  msg a w = Returns (m_msg e) w' /\
  (exists b : bool,
     to_bool a w = Returns b w' /\ (b = true <-> m_code e ≠ 0)) /\
  acknowledged a w' = Some true.
Proof.
  intros H w'. split; [now apply code_spec|].
  split; [now apply msg_spec|]. split.
  - exists (negb (m_code e =? 0)). split; [now apply to_bool_spec|].
    rewrite negb_true_iff. apply Z.eqb_neq.
  - unfold acknowledged, w'. now rewrite objects_put.
Qed.

(** C4, as the code has it. [is_error] and [is_fault] classify the
    wrapped code and, reading it through [code], set the flag. *)
Theorem classification_acknowledges (a : addr) (e : SensorError)
    (w : World) :
  objects w !! a = Some e ->
  let w' := put a (set_value true e) w in
  is_error a w = Returns (is_error_code (m_code e)) w' /\
  is_fault a w = Returns (is_fault_code (m_code e)) w' /\
  acknowledged a w' = Some true.
Proof.
  intros H w'. unfold is_error, is_fault.
  rewrite !(bind_Returns _ _ _ _ _ (code_spec _ _ _ H)).
  repeat split. unfold acknowledged, w'. now rewrite objects_put.
Qed.

Lemma acknowledged_destroyed_silently (a : addr) (w : World) :
  acknowledged a w = Some true -> destroyed_silently a w.
Proof.
  unfold acknowledged. destruct (objects w !! a) as [e|] eqn:H;
    simpl; [|discriminate].
  intros [= Hv]. apply (dtor_checked a e w H). rewrite Hv.
  apply orb_true_r.
Qed.

Lemma acknowledged_put (a : addr) (e : SensorError) (w : World) :
  acknowledged a (put a e w) = Some (value (m_used e)).
Proof. unfold acknowledged. now rewrite objects_put. Qed.

Lemma acknowledged_put_ne (a b : addr) (e : SensorError) (w : World) :
  a ≠ b -> acknowledged b (put a e w) = acknowledged b w.
Proof. intros H. unfold acknowledged. now rewrite objects_put_ne. Qed.

Lemma Used_transfer_spec (t : Transfer) (a : addr) (e : SensorError)
    (w : World) :
  objects w !! a = Some e ->
  Used_transfer t a w = Returns tt (put a (set_value true e) w).
Proof.
  intros H.
  assert (Hc : (Used_set a;; mret Used_default) w
               = Returns Used_default (put a (set_value true e) w))
    by now rewrite (bind_Returns _ _ _ _ _ (Used_set_spec _ _ _ H)).
  destruct t; simpl;
    unfold Used_copy_ctor, Used_move_ctor, Used_copy_assign,
      Used_move_assign.
  - now rewrite (bind_Returns _ _ _ _ _ Hc).
  - now apply Used_set_spec.
  - now rewrite (bind_Returns _ _ _ _ _ Hc).
  - now apply Used_set_spec.
Qed.

(** C2. Copying from, copy-assigning from or moving from the object at
    [a] sets its flag, at the level of [Used] and of [SensorError]; its
    destruction afterwards writes no report, whatever its code. *)
Theorem transfer_acknowledges_source (t : Transfer) (a : addr)
    (e : SensorError) (w : World) :
  objects w !! a = Some e ->
  target_allocated t w ->
  (exists w' : World,
     Used_transfer t a w = Returns tt w' /\
     acknowledged a w' = Some true /\ destroyed_silently a w') /\
  (exists w' : World,
     SensorError_transfer t a w = Returns tt w' /\
     acknowledged a w' = Some true /\ destroyed_silently a w').
Proof.
  intros H Ht. split.
  - assert (Ha : acknowledged a (put a (set_value true e) w) = Some true)
      by apply acknowledged_put.
    exists (put a (set_value true e) w).
    split; [now apply Used_transfer_spec|].
    split; [exact Ha|now apply acknowledged_destroyed_silently].
  - assert (Hc : exists w' : World,
        (SensorError_copy_ctor a;; mret tt) w = Returns tt w' /\
        acknowledged a w' = Some true).
    { eexists. split.
      - now rewrite (bind_Returns _ _ _ _ _
                       (SensorError_copy_ctor_spec _ _ _ H)).
      - rewrite acknowledged_put_ne, acknowledged_put; [reflexivity|].
        now apply next_addr_ne with e. }
    assert (Hs : forall this : addr, is_Some (objects w !! this) ->
        exists w' : World,
          SensorError_copy_assign this a w = Returns tt w' /\
          acknowledged a w' = Some true).
    { intros this [x Hx]. eexists. split.
      - exact (SensorError_copy_assign_spec this a x e w Hx H).
      - apply acknowledged_put. }
    assert (Hall : exists w' : World,
        SensorError_transfer t a w = Returns tt w' /\
        acknowledged a w' = Some true).
    { destruct t; simpl in *; unfold SensorError_move_ctor,
        SensorError_move_assign; auto. }
    destruct Hall as (w' & Hr & Ha). exists w'.
    repeat split; try assumption.
    now apply acknowledged_destroyed_silently.
Qed.

(** C3. An assignment leaves the flag of the object assigned to as it
    was: between distinct objects the target keeps its flag, and a target
    whose flag was set, assigned an unread failure, holds the failure
    with the flag still set, so that its destruction writes no report. *)
Theorem assignment_keeps_target_flag (this other : addr)
    (t o : SensorError) (w : World) :
  objects w !! this = Some t ->
  objects w !! other = Some o ->
  exists w' : World,
    SensorError_copy_assign this other w = Returns tt w' /\
    SensorError_move_assign this other w = Returns tt w' /\
    (this ≠ other ->
       objects w' !! this = Some (assigned t o) /\
       acknowledged this w' = acknowledged this w) /\
    (value (m_used t) = true ->
     m_code o ≠ 0 -> value (m_used o) = false ->
       (exists n : SensorError,
          objects w' !! this = Some n /\ m_code n = m_code o /\
          value (m_used n) = true) /\
       destroyed_silently this w').
Proof.
  intros Ht Ho. eexists. split; [|split; [|split]].
  - exact (SensorError_copy_assign_spec this other t o w Ht Ho).
  - exact (SensorError_copy_assign_spec this other t o w Ht Ho).
  - intros Hne. rewrite objects_put_ne, objects_put by congruence.
    split; [reflexivity|].
    rewrite acknowledged_put_ne, acknowledged_put by congruence.
    unfold acknowledged. now rewrite Ht.
  - intros Hv Hc Hu.
    assert (Hne : other ≠ this) by (intros ->; congruence).
    assert (Hl : objects (put other (set_value true o)
                            (put this (assigned t o) w)) !! this
                 = Some (assigned t o))
      by now rewrite objects_put_ne, objects_put.
    split.
    + exists (assigned t o). now repeat split.
    + apply (dtor_checked this (assigned t o) _ Hl). simpl. rewrite Hv.
      apply orb_true_r.
Qed.

(** C9. A constructor given a code whose name is empty takes the
    "Invalid error code!" assertion path: one report is written, and the
    process is ended in a build with exceptions. A construction that
    returns having written nothing wraps a code with a name. *)
Theorem ctor_asserts_named_code (code_ : Z) (msg_ : string) (w : World) :
  let a := next_addr w in
  let w' := put a (constructed code_ msg_) w in
  (c_str (get_error_code_name code_) = ""%string ->
     SensorError_ctor code_ msg_ w =
       if CEPTON_ENABLE_EXCEPTIONS
       then Terminated (report invalid_code_report w')
       else Returns a (report invalid_code_report w')) /\
  (c_str (get_error_code_name code_) ≠ ""%string ->
     SensorError_ctor code_ msg_ w = Returns a w') /\
  (forall (a' : addr) (w'' : World),
     SensorError_ctor code_ msg_ w = Returns a' w'' ->
     stderr w'' = stderr w ->
     c_str (get_error_code_name code_) ≠ ""%string /\
     objects w'' !! a' = Some (constructed code_ msg_)).
Proof.
  intros a w'. rewrite SensorError_ctor_spec. fold a w'. cbv zeta.
  pose proof (first_is_nul_c_str (get_error_code_name code_)) as Hn.
  destruct (first_is_nul (get_error_code_name code_)).
  - split; [reflexivity|]. split; [intros H; now destruct H; apply Hn|].
    intros a' w'' Hr Hs.
    destruct CEPTON_ENABLE_EXCEPTIONS; [discriminate|].
    injection Hr as <- <-. simpl in Hs.
    apply (f_equal List.length) in Hs. rewrite length_app in Hs.
    simpl in Hs. lia.
  - assert (Hne : c_str (get_error_code_name code_) ≠ ""%string).
    { intros E. apply Hn in E. discriminate. }
    split; [intros E; now destruct Hne|]. split; [reflexivity|].
    intros a' w'' [= <- <-] _. split; [exact Hne|apply objects_put].
Qed.

End CheckedError.

(** ** The context wrapper *)

Section Wrapper.

Context {sdk : Sdk}.

(** The object a wrapper holds, once the assigned error has been read. *)
Lemma wrapper_target (this : SensorErrorWrapper) (error_ : addr)
    (e t : SensorError) (w : World) :
  objects w !! error_ = Some e ->
  objects w !! error this = Some t ->
  exists t' : SensorError,
    objects (put error_ (set_value true e) w) !! error this = Some t' /\
    (error_ = error this -> value (m_used t') = true).
Proof.
  intros He Ht. destruct (decide (error_ = error this)) as [E|E].
  - exists (set_value true e). rewrite <- E, objects_put. now split.
  - exists t. rewrite objects_put_ne by assumption. now split.
Qed.

(** C6. After [w = e] the wrapper holds a success error whose destruction
    writes no report when [e] is a success, and otherwise an error with
    the code of [e] and the message made of the context, a newline, a tab
    and the message of [e]. The assignment returns, except in a build
    with exceptions when the code of [e] has no name. *)
Theorem wrapper_assign_result (this : SensorErrorWrapper) (error_ : addr)
    (e t : SensorError) (w : World) :
  objects w !! error_ = Some e ->
  objects w !! error this = Some t ->
  nul_free (context this) = true ->
  msg_is_c_string e ->
  match SensorErrorWrapper_assign this error_ w with
  | Returns _ w' =>
      exists n : SensorError,
        objects w' !! error this = Some n /\
        (m_code e = 0 ->
           m_code n = CEPTON_SUCCESS /\
           destroyed_silently (error this) w') /\
        (m_code e ≠ 0 ->
           m_code n = m_code e /\
           m_msg n = (context this ++ newline ++ tab ++ m_msg e)%string)
  | Terminated _ =>
      CEPTON_ENABLE_EXCEPTIONS = true /\
      c_str (get_error_code_name (m_code e)) = ""%string
  | Undefined => False
  end.
Proof.
  intros He Ht Hc Hm.
  destruct (wrapper_target this error_ e t w He Ht) as (t' & Ht' & _).
  rewrite (SensorErrorWrapper_assign_spec this error_ e t' w He Ht').
  cbv zeta.
  assert (Hres : forall w1 : World,
    exists n : SensorError,
      objects (put (error this) (assigned t' (wrapped_error this e)) w1)
        !! error this = Some n /\
      (m_code e = 0 ->
         m_code n = CEPTON_SUCCESS /\
         (m_code n =? 0) || value (m_used n) = true) /\
      (m_code e ≠ 0 ->
         m_code n = m_code e /\
         m_msg n = (context this ++ newline ++ tab ++ m_msg e)%string)).
  { intros w1. eexists. split; [apply objects_put|].
    unfold wrapped_error. split; intros E.
    - rewrite E. simpl. now split.
    - apply Z.eqb_neq in E. rewrite E. simpl. split; [reflexivity|].
      now apply wrapped_is_c_string. }
  pose proof (first_is_nul_c_str (get_error_code_name (m_code e))) as Hn.
  destruct (first_is_nul (get_error_code_name (m_code e)));
    [destruct CEPTON_ENABLE_EXCEPTIONS|].
  - split; [reflexivity|now apply Hn].
  - destruct (Hres (put error_ (set_value true e) w)) as (n & Hl & H0 & H1).
    exists n. split; [exact Hl|]. split; [|exact H1].
    intros E. destruct (H0 E) as [Hz Hk]. split; [exact Hz|].
    now apply (dtor_checked (error this) n).
  - destruct (Hres (put error_ (set_value true e) w)) as (n & Hl & H0 & H1).
    exists n. split; [exact Hl|]. split; [|exact H1].
    intros E. destruct (H0 E) as [Hz Hk]. split; [exact Hz|].
    now apply (dtor_checked (error this) n).
Qed.

(** C10. [w = e] reads [e] in both branches, so that the flag of [e] is
    set afterwards and its destruction writes no report; this holds also
    where the assignment ends the process. *)
Theorem wrapper_assign_acknowledges_source (this : SensorErrorWrapper)
    (error_ : addr) (e t : SensorError) (w : World) :
  objects w !! error_ = Some e ->
  objects w !! error this = Some t ->
  match SensorErrorWrapper_assign this error_ w with
  | Returns _ w' =>
      acknowledged error_ w' = Some true /\ destroyed_silently error_ w'
  | Terminated w' =>
      CEPTON_ENABLE_EXCEPTIONS = true /\
      c_str (get_error_code_name (m_code e)) = ""%string /\
      acknowledged error_ w' = Some true
  | Undefined => False
  end.
Proof.
  intros He Ht.
  destruct (wrapper_target this error_ e t w He Ht) as (t' & Ht' & Hv).
  rewrite (SensorErrorWrapper_assign_spec this error_ e t' w He Ht').
  cbv zeta.
  assert (Hack : acknowledged error_
            (put (error this) (assigned t' (wrapped_error this e))
               (put error_ (set_value true e) w)) = Some true).
  { destruct (decide (error_ = error this)) as [E|E].
    - rewrite <- E, acknowledged_put. simpl. f_equal. now apply Hv.
    - rewrite acknowledged_put_ne, acknowledged_put by congruence.
      reflexivity. }
  pose proof (first_is_nul_c_str (get_error_code_name (m_code e))) as Hn.
  destruct (first_is_nul (get_error_code_name (m_code e)));
    [destruct CEPTON_ENABLE_EXCEPTIONS|].
  - split; [reflexivity|]. split; [now apply Hn|].
    change (acknowledged error_
              (put (next_addr w) (wrapped_error this e)
                 (put error_ (set_value true e) w)) = Some true).
    rewrite acknowledged_put_ne, acknowledged_put; [reflexivity|].
    now apply next_addr_ne with e.
  - split; [exact Hack|].
    apply acknowledged_destroyed_silently. exact Hack.
  - split; [exact Hack|].
    now apply acknowledged_destroyed_silently.
Qed.

End Wrapper.

(** ** Capture replay *)

Section Replay.

Context {sdk : Sdk}.

(** C7, as the code has it. [get_time] adds to the start time the
    product of [1e6f] and the position with its fractional part
    discarded: for a product that is not negative, the integer [t] with
    [t <= product < t + 1]; the sum is taken in 64 bits. *)
Theorem get_time_truncates (d : Driver) (n den t : Z) :
  float_value (fmul f1e6 (get_position d)) = Some (n, den) ->
  0 <= n ->
  den * t <= n < den * (t + 1) ->
  t <= UINT64_MAX ->
  get_time d = Some ((get_start_time d + t) mod 2 ^ 64).
Proof.
  intros Hv Hn Hf Ht. unfold get_time.
  now rewrite (float_to_uint64_floor _ n den t Hv Hf Hn Ht).
Qed.

(** C8. [seek_relative delta] is [seek] at the sum of the position read
    at the start of the call and [delta]: the same error is returned and
    the library, with its replay position, is left in the same state. *)
Theorem seek_relative_is_seek (delta : float) (w : World) :
  seek_relative delta w = seek (fadd (get_position (driver w)) delta) w.
Proof.
  unfold seek_relative, seek.
  rewrite !(bind_Returns _ _ w w (driver w)) by reflexivity.
  now rewrite fadd_comm.
Qed.

End Replay.

(** ** The claims on the test double *)

Lemma dtor_reports_unchecked_only_witness :
  @SensorError_dtor (test_sdk true) 0%nat (test_world true)
    = Terminated (report (@not_checked_report (test_sdk true))
                   (test_world true)) /\
  @SensorError_dtor (test_sdk false) 0%nat (test_world false)
    = Returns tt (remove 0%nat (report (@not_checked_report (test_sdk false))
                                (test_world false)))
  /\ destroyed_silently 1%nat (test_world false).
Proof.
  split; [|split].
  - apply (proj1 (@dtor_reports_unchecked_only (test_sdk true) 0%nat
                    test_unchecked (test_world true) eq_refl)).
    split; [discriminate|reflexivity].
  - apply (proj1 (@dtor_reports_unchecked_only (test_sdk false) 0%nat
                    test_unchecked (test_world false) eq_refl)).
    split; [discriminate|reflexivity].
  - apply (proj1 (proj2 (@dtor_reports_unchecked_only (test_sdk false) 1%nat
                           test_checked (test_world false) eq_refl))).
    right. reflexivity.
Defined.

Lemma transfer_acknowledges_source_witness :
  exists w' : World,
    @SensorError_transfer (test_sdk true) (CopyAssign 1%nat) 0%nat
      (test_world true) = Returns tt w' /\
    acknowledged 0%nat w' = Some true /\ destroyed_silently 0%nat w'.
Proof.
  apply (proj2 (@transfer_acknowledges_source (test_sdk true)
                  (CopyAssign 1%nat) 0%nat test_unchecked (test_world true)
                  eq_refl ltac:(vm_compute; eauto))).
Defined.

Lemma assignment_keeps_target_flag_witness :
  exists w' : World,
    @SensorError_copy_assign (test_sdk true) 1%nat 0%nat (test_world true)
      = Returns tt w' /\
    objects w' !! 1%nat = Some (assigned test_checked test_unchecked) /\
    destroyed_silently 1%nat w'.
Proof.
  destruct (@assignment_keeps_target_flag (test_sdk true) 1%nat 0%nat
              test_checked test_unchecked (test_world true)
              eq_refl eq_refl) as (w' & Hc & _ & Hne & Hd).
  exists w'. split; [exact Hc|]. split.
  - apply Hne. discriminate.
  - apply Hd; [reflexivity|discriminate|reflexivity].
Defined.

(** C4, as claimed, fails: the flag of an unread error is set by
    [is_error] and by [is_fault]. *)
Lemma classification_is_not_pure :
  let w := test_world false in
  let w' := put 0%nat (set_value true test_unchecked) w in
  acknowledged 0%nat w = Some false /\
  is_error 0%nat w = Returns true w' /\
  is_fault 0%nat w = Returns false w' /\
  acknowledged 0%nat w' = Some true.
Proof. vm_compute. repeat split. Qed.

Lemma classification_acknowledges_witness :
  let w' := put 0%nat (set_value true test_unchecked) (test_world false) in
  @is_error (test_sdk false) 0%nat (test_world false) = Returns true w' /\
  @is_fault (test_sdk false) 0%nat (test_world false) = Returns false w' /\
  acknowledged 0%nat w' = Some true.
Proof.
  apply (@classification_acknowledges (test_sdk false) 0%nat test_unchecked
           (test_world false)).
  reflexivity.
Defined.

Lemma reading_acknowledges_witness :
  let w' := put 0%nat (set_value true test_unchecked) (test_world false) in
  @code (test_sdk false) 0%nat (test_world false) = Returns (-1) w' /\
  @msg (test_sdk false) 0%nat (test_world false) = Returns "boom"%string w' /\
  (exists b : bool,
     @to_bool (test_sdk false) 0%nat (test_world false) = Returns b w' /\
     (b = true <-> -1 ≠ 0)) /\
  acknowledged 0%nat w' = Some true.
Proof.
  apply (@reading_acknowledges (test_sdk false) 0%nat test_unchecked
           (test_world false)).
  reflexivity.
Defined.

(** A wrapper whose error is the object at address 1. *)
Lemma wrapper_assign_result_witness :
  match @SensorErrorWrapper_assign (test_sdk true)
          {| context := "replay"; error := 1%nat |} 0%nat (test_world true)
  with
  | Returns _ w' =>
      exists n : SensorError,
        objects w' !! 1%nat = Some n /\
        (-1 = 0 -> m_code n = CEPTON_SUCCESS /\ destroyed_silently 1%nat w') /\
        (-1 ≠ 0 ->
           m_code n = -1 /\
           m_msg n = ("replay" ++ newline ++ tab ++ "boom")%string)
  | Terminated _ => True /\ True
  | Undefined => False
  end.
Proof.
  pose proof (@wrapper_assign_result (test_sdk true)
                {| context := "replay"; error := 1%nat |} 0%nat
                test_unchecked test_checked (test_world true)
                eq_refl eq_refl eq_refl eq_refl) as H.
  destruct (@SensorErrorWrapper_assign (test_sdk true) _ 0%nat
              (test_world true)); [exact H|split; exact I|exact H].
Defined.

Lemma wrapper_assign_acknowledges_source_witness :
  match @SensorErrorWrapper_assign (test_sdk true)
          {| context := "replay"; error := 1%nat |} 0%nat (test_world true)
  with
  | Returns _ w' =>
      acknowledged 0%nat w' = Some true /\ destroyed_silently 0%nat w'
  | Terminated w' => True
  | Undefined => False
  end.
Proof.
  pose proof (@wrapper_assign_acknowledges_source (test_sdk true)
                {| context := "replay"; error := 1%nat |} 0%nat
                test_unchecked test_checked (test_world true)
                eq_refl eq_refl) as H.
  destruct (@SensorErrorWrapper_assign (test_sdk true) _ 0%nat
              (test_world true)); [exact H|exact I|exact H].
Defined.

Lemma ctor_asserts_named_code_witness :
  @SensorError_ctor (test_sdk true) 7 "x" (test_world true)
    = Terminated (report (@invalid_code_report (test_sdk true))
                    (put 2%nat (@constructed (test_sdk true) 7 "x")
                       (test_world true))) /\
  @SensorError_ctor (test_sdk true) (-1) "x" (test_world true)
    = Returns 2%nat (put 2%nat (@constructed (test_sdk true) (-1) "x")
                     (test_world true)).
Proof.
  split.
  - apply (proj1 (@ctor_asserts_named_code (test_sdk true) 7 "x"
                    (test_world true))).
    reflexivity.
  - apply (proj1 (proj2 (@ctor_asserts_named_code (test_sdk true) (-1) "x"
                           (test_world true)))).
    discriminate.
Defined.

(** C7, as claimed, fails: at 3/256 s the product is 11718.75, which
    [get_time] takes down to 11718 and rounding takes up to 11719. *)
Lemma get_time_does_not_round :
  float_value (fmul f1e6 (@get_position (test_sdk false) test_replay))
    = Some (12000000, 1024) /\
  @get_time (test_sdk false) test_replay = Some 1600000000011718 /\
  @spec_get_time (test_sdk false) test_replay = Some 1600000000011719.
Proof. vm_compute. repeat split. Qed.

Lemma get_time_truncates_witness :
  @get_time (test_sdk false) test_replay
    = Some ((1600000000000000 + 11718) mod 2 ^ 64).
Proof.
  apply (@get_time_truncates (test_sdk false) test_replay 12000000 1024
           11718).
  - reflexivity.
  - lia.
  - lia.
  - vm_compute. discriminate.
Defined.

(** ** Invariants on the objects of the store *)

Section Maintains.

Context {sdk : Sdk} {calls : SdkCalls sdk}.

Lemma maintains_ret {A : Type} (I : World -> Prop) (P : A -> Prop) (a : A) :
  P a -> maintains I P (mret a).
Proof. intros H w Hw. now split. Qed.

Lemma maintains_bind {A B : Type} (I : World -> Prop) (P : A -> Prop)
    (Q : B -> Prop) (m : M A) (f : A -> M B) :
  maintains I P m -> (forall a : A, P a -> maintains I Q (f a)) ->
  maintains I Q (m ≫= f).
Proof.
  intros Hm Hf w Hw. specialize (Hm w Hw). unfold mbind, M_bind.
  destruct (m w) as [a w'| |]; [|assumption|trivial].
  destruct Hm as [Hw' Ha]. exact (Hf a Ha w' Hw').
Qed.

Lemma maintains_weaken {A : Type} (I : World -> Prop) (P Q : A -> Prop)
    (m : M A) :
  (forall a : A, P a -> Q a) -> maintains I P m -> maintains I Q m.
Proof.
  intros H Hm w Hw. specialize (Hm w Hw).
  destruct (m w); [|assumption|trivial]. split; [apply Hm|apply H, Hm].
Qed.

Lemma maintains_discard {A : Type} (I : World -> Prop) (P : A -> Prop)
    (m : M A) :
  maintains I P m -> maintains I (fun _ : unit => True) (m;; mret tt).
Proof.
  intros Hm. apply maintains_bind with P; [exact Hm|].
  intros a _. now apply maintains_ret.
Qed.

Variables (I : World -> Prop) (Q : addr -> SensorError -> Prop)
  (N : SensorError -> Prop) (F : addr -> Prop).
Hypothesis HI : ObjectInvariant I Q N F.

Lemma maintains_load (a : addr) : maintains I (Q a) (load a).
Proof.
  intros w Hw. unfold load. destruct (objects w !! a) eqn:E; [|trivial].
  split; [assumption|]. exact (oi_lookup _ _ _ _ HI w a s Hw E).
Qed.

Lemma maintains_store (a : addr) (e : SensorError) :
  Q a e -> maintains I (fun _ => True) (store a e).
Proof.
  intros He w Hw. unfold store. destruct (objects w !! a) eqn:E; [|trivial].
  split; [|trivial]. apply (oi_put _ _ _ _ HI); eauto.
Qed.

Lemma maintains_alloc (e : SensorError) : N e -> maintains I F (alloc e).
Proof. intros He w Hw. exact (oi_new _ _ _ _ HI w e Hw He). Qed.

Lemma maintains_free (a : addr) :
  F a -> maintains I (fun _ => True) (free a).
Proof.
  intros Ha w Hw. split; [|trivial]. now apply (oi_remove _ _ _ _ HI).
Qed.

Lemma maintains_assert (line : Z) (condition : bool) (text m : string) :
  maintains I (fun _ => True) (CEPTON_RUNTIME_ASSERT line condition text m).
Proof.
  intros w Hw. unfold CEPTON_RUNTIME_ASSERT, throw_runtime_assert.
  destruct condition; simpl; [now split|].
  unfold mbind, M_bind, fprintf_stderr.
  assert (Hr : forall r : string, I (with_stderr (stderr w ++ [r]) w))
    by (intros r; now apply (oi_objects _ _ _ _ HI w)).
  destruct CEPTON_ENABLE_EXCEPTIONS; simpl; [apply Hr|split; [apply Hr|]].
  trivial.
Qed.

Lemma maintains_get_driver : maintains I (fun _ => True) get_driver.
Proof. intros w Hw. now split. Qed.

Lemma maintains_put_driver (d : Driver) :
  maintains I (fun _ => True) (put_driver d).
Proof.
  intros w Hw. split; [|trivial]. now apply (oi_objects _ _ _ _ HI w).
Qed.

Lemma maintains_Used_set (a : addr) : maintains I (fun _ => True) (Used_set a).
Proof.
  apply maintains_bind with (Q a); [apply maintains_load|].
  intros e He. apply maintains_store. now apply (oi_set_value _ _ _ _ HI).
Qed.

Lemma maintains_read {A : Type} (a : addr) (f : SensorError -> A) :
  maintains I (fun _ => True) (Used_set a;; e ← load a; mret (f e)).
Proof.
  apply maintains_bind with (fun _ => True); [apply maintains_Used_set|].
  intros _ _. apply maintains_bind with (Q a); [apply maintains_load|].
  intros e _. now apply maintains_ret.
Qed.

Lemma maintains_code (a : addr) : maintains I (fun _ => True) (code a).
Proof. apply maintains_read. Qed.

Lemma maintains_msg (a : addr) : maintains I (fun _ => True) (msg a).
Proof. apply maintains_read. Qed.

Lemma maintains_after_code {A : Type} (a : addr) (f : Z -> A) :
  maintains I (fun _ => True) (c ← code a; mret (f c)).
Proof.
  apply maintains_bind with (fun _ => True); [apply maintains_code|].
  intros c _. now apply maintains_ret.
Qed.

Lemma maintains_accessor (r : Accessor) (a : addr) :
  maintains I (fun _ => True) (run_accessor r a).
Proof.
  destruct r; simpl;
    try (apply maintains_discard with (fun _ => True));
    try apply maintains_Used_set; try apply maintains_read;
    apply maintains_after_code.
Qed.

Lemma maintains_ctor (code_ : Z) (msg_ : string) :
  maintains I F (SensorError_ctor code_ msg_).
Proof.
  apply maintains_bind with F.
  { apply maintains_alloc. apply (oi_constructed _ _ _ _ HI). }
  intros this Hf. apply maintains_bind with (Q this); [apply maintains_load|].
  intros e _. apply maintains_bind with (fun _ => True);
    [apply maintains_assert|].
  intros _ _. now apply maintains_ret.
Qed.

Lemma maintains_copy_ctor (other : addr) :
  maintains I F (SensorError_copy_ctor other).
Proof.
  apply maintains_bind with (Q other); [apply maintains_load|].
  intros o Ho. apply maintains_bind with (fun u => u = Used_default).
  { apply maintains_bind with (fun _ => True); [apply maintains_Used_set|].
    intros _ _. now apply maintains_ret. }
  intros u ->. apply maintains_alloc. exact (oi_copied _ _ _ _ HI other o Ho).
Qed.

Lemma maintains_copy_assign (this other : addr) :
  maintains I (fun _ => True) (SensorError_copy_assign this other).
Proof.
  apply maintains_bind with (Q other); [apply maintains_load|].
  intros o Ho. apply maintains_bind with (Q this); [apply maintains_load|].
  intros t Ht. apply maintains_bind with (fun _ => True).
  { apply maintains_store. exact (oi_assigned _ _ _ _ HI this other t o Ht Ho). }
  intros _ _. apply maintains_Used_set.
Qed.

Lemma maintains_dtor (this : addr) :
  F this -> maintains I (fun _ => True) (SensorError_dtor this).
Proof.
  intros Hf. apply maintains_bind with (Q this); [apply maintains_load|].
  intros e _. apply maintains_bind with (fun _ => True);
    [apply maintains_assert|].
  intros _ _. now apply maintains_free.
Qed.

Lemma maintains_temporary (this : addr) (code_ : Z) (msg_ : string) :
  maintains I (fun _ => True)
    (tmp ← SensorError_ctor code_ msg_;
     SensorError_copy_assign this tmp;; SensorError_dtor tmp).
Proof.
  apply maintains_bind with F; [apply maintains_ctor|].
  intros tmp Hf. apply maintains_bind with (fun _ => True);
    [apply maintains_copy_assign|].
  intros _ _. now apply maintains_dtor.
Qed.

Lemma maintains_wrapper_assign (this : SensorErrorWrapper) (error_ : addr) :
  maintains I (fun _ => True) (SensorErrorWrapper_assign this error_).
Proof.
  apply maintains_bind with (fun _ => True); [apply maintains_after_code|].
  intros b _. destruct (negb b); [apply maintains_temporary|].
  apply maintains_bind with (fun _ => True); [apply maintains_msg|].
  intros m _. apply maintains_bind with (fun _ => True);
    [apply maintains_code|].
  intros c _. apply maintains_temporary.
Qed.

Lemma maintains_get_error : maintains I F get_error.
Proof.
  intros w Hw. unfold get_error, mbind, M_bind, get_driver.
  destruct (cepton_sdk_get_error (driver w)) as [[c m] d'].
  apply (maintains_ctor c m (with_driver d' w)).
  now apply (oi_objects _ _ _ _ HI w).
Qed.

Lemma maintains_library (f : Driver -> Driver) :
  maintains I F (d ← get_driver; put_driver (f d);; get_error).
Proof.
  apply maintains_bind with (fun _ => True); [apply maintains_get_driver|].
  intros d _. apply maintains_bind with (fun _ => True);
    [apply maintains_put_driver|].
  intros _ _. apply maintains_get_error.
Qed.

Lemma maintains_call (c : Call) : maintains I F (run_call c).
Proof.
  destruct c; simpl; apply maintains_library.
Qed.

Lemma maintains_op (o : Op) :
  (forall a : addr, destroys o a -> F a) ->
  maintains I (fun _ => True) (run_op o).
Proof.
  intros Hd. destruct o; simpl.
  - apply maintains_discard with F, maintains_ctor.
  - apply maintains_discard with F, maintains_copy_ctor.
  - apply maintains_copy_assign.
  - apply maintains_dtor. now apply Hd.
  - apply maintains_accessor.
  - apply maintains_discard with (fun _ => True).
    apply maintains_bind with F; [apply maintains_ctor|].
    intros e _. now apply maintains_ret.
  - apply maintains_wrapper_assign.
  - apply maintains_discard with (fun _ => True), maintains_after_code.
  - apply maintains_discard with F, maintains_get_error.
  - apply maintains_discard with F, maintains_call.
Qed.

End Maintains.

(** ** Two invariants of every program *)

Section Programs.

Context {sdk : Sdk} {calls : SdkCalls sdk}.

Lemma store_wf_invariant :
  ObjectInvariant store_wf (fun _ e => msg_is_c_string e) msg_is_c_string
    (fun _ => True).
Proof.
  split.
  - intros w w' E Hw a e. rewrite <- E. apply Hw.
  - intros w a e Hw. apply Hw.
  - intros w a e Hw _ He. now apply store_wf_put.
  - intros w e Hw He. split; [now apply store_wf_put|exact I].
  - intros w a Hw _. now apply store_wf_remove.
  - intros a e He. exact He.
  - intros a b t o _ Ho. exact Ho.
  - intros c m. apply c_str_nul_free.
  - intros b o Ho. exact Ho.
Qed.

Lemma acknowledged_invariant (a : addr) :
  ObjectInvariant (fun w => acknowledged a w = Some true)
    (fun b e => b = a -> value (m_used e) = true) (fun _ => True)
    (fun b => b ≠ a).
Proof.
  split.
  - intros w w' E. unfold acknowledged. now rewrite E.
  - intros w b e Hw Hb ->. unfold acknowledged in Hw. rewrite Hb in Hw.
    now injection Hw.
  - intros w b e Hw _ He. destruct (decide (b = a)) as [->|Hne].
    + rewrite acknowledged_put. f_equal. now apply He.
    + now rewrite acknowledged_put_ne.
  - intros w e Hw _.
    assert (Hne : next_addr w ≠ a).
    { unfold acknowledged in Hw.
      destruct (objects w !! a) as [x|] eqn:E; [|discriminate].
      now apply next_addr_ne with x. }
    split; [now rewrite acknowledged_put_ne|exact Hne].
  - intros w b Hw Hne. unfold acknowledged, remove; simpl.
    now rewrite lookup_delete_ne.
  - intros b e _ _. reflexivity.
  - intros b c t o Ht _. exact Ht.
  - intros c m. exact I.
  - intros b o _. exact I.
Qed.

Lemma maintains_ops (I : World -> Prop) (Q : addr -> SensorError -> Prop)
    (N : SensorError -> Prop) (F : addr -> Prop) (os : list Op) :
  ObjectInvariant I Q N F ->
  Forall (fun o => forall a : addr, destroys o a -> F a) os ->
  maintains I (fun _ => True) (run_ops os).
Proof.
  intros HI. induction 1 as [|o os Ho _ IH]; simpl.
  - now apply maintains_ret.
  - apply maintains_bind with (fun _ => True).
    + now apply maintains_op with Q N F.
    + intros _ _. exact IH.
Qed.

(** X1. Whatever a program does with errors, wrappers and the library,
    every message held in the store is a C string, at its end and where
    it is ended; a program starts from an empty store. *)
Theorem messages_are_c_strings (os : list Op) (w : World) :
  objects w = ∅ ->
  match run_ops os w with
  | Returns _ w' | Terminated w' => store_wf w'
  | Undefined => True
  end.
Proof.
  intros Hw.
  assert (H0 : store_wf w).
  { intros a e. rewrite Hw, lookup_empty. discriminate. }
  pose proof (maintains_ops _ _ _ _ os store_wf_invariant) as H.
  specialize (H ltac:(apply Forall_forall; intros o _ a _; exact I) w H0).
  destruct (run_ops os w); [apply H|exact H|exact I].
Qed.

(** X2. The flag of an object is never unset: once it is set it stays
    set through every operation on any object, as long as the object
    itself is not destroyed. *)
Theorem acknowledged_is_kept (a : addr) (os : list Op) (w : World) :
  acknowledged a w = Some true ->
  Forall (fun o => ¬ destroys o a) os ->
  match run_ops os w with
  | Returns _ w' | Terminated w' => acknowledged a w' = Some true
  | Undefined => True
  end.
Proof.
  intros Ha Hos.
  pose proof (maintains_ops _ _ _ _ os (acknowledged_invariant a)) as H.
  assert (Hf : Forall (fun o => forall b : addr, destroys o b -> b ≠ a) os).
  { eapply Forall_impl; [exact Hos|]. simpl. intros o Ho b Hb ->.
    now apply Ho. }
  specialize (H Hf w Ha).
  destruct (run_ops os w); [apply H|exact H|exact I].
Qed.

End Programs.

(** ** More on the checked error *)

Section Obligation.

Context {sdk : Sdk} {calls : SdkCalls sdk}.

Lemma run_accessor_spec (r : Accessor) (a : addr) (e : SensorError)
    (w : World) :
  objects w !! a = Some e ->
  run_accessor r a w = Returns tt (put a (set_value true e) w).
Proof.
  intros H.
  assert (Hc : forall (A : Type) (f : Z -> A),
             (c ← code a; mret (f c)) w
             = Returns (f (m_code e)) (put a (set_value true e) w))
    by (intros A f; now rewrite (bind_Returns _ _ _ _ _ (code_spec _ _ _ H))).
  destruct r; simpl; unfold ignore, to_SensorErrorCode, to_bool, name,
    is_error, is_fault.
  - now apply Used_set_spec.
  - now rewrite (bind_Returns _ _ _ _ _ (msg_spec _ _ _ H)).
  - now rewrite (bind_Returns _ _ _ _ _ (code_spec _ _ _ H)).
  - now rewrite (bind_Returns _ _ _ _ _ (code_spec _ _ _ H)).
  - now rewrite (bind_Returns _ _ _ _ _ (Hc _ _)).
  - now rewrite (bind_Returns _ _ _ _ _ (Hc _ _)).
  - now rewrite (bind_Returns _ _ _ _ _ (Hc _ _)).
  - now rewrite (bind_Returns _ _ _ _ _ (Hc _ _)).
Qed.

(** X3. [ignore], [name] and the conversion to [SensorErrorCode] set
    the flag like the other accessors; an accessor changes nothing but
    the flag of its object, a second accessor changes nothing at all,
    and the object is then destroyed without a report. *)
Theorem accessors_only_set_flag (a : addr) (e : SensorError) (w : World) :
  objects w !! a = Some e ->
  let w' := put a (set_value true e) w in
  ignore a w = Returns tt w' /\
  name a w = Returns (get_error_code_name (m_code e)) w' /\
  to_SensorErrorCode a w = Returns (m_code e) w' /\
  (forall r : Accessor, run_accessor r a w = Returns tt w') /\
  (forall r r' : Accessor,
     (run_accessor r a;; run_accessor r' a) w = Returns tt w') /\
  destroyed_silently a w'.
Proof.
  intros H w'. split; [now apply Used_set_spec|]. split.
  { unfold name. now rewrite (bind_Returns _ _ _ _ _ (code_spec _ _ _ H)). }
  split; [now apply code_spec|]. split; [intros r; now apply run_accessor_spec|].
  split.
  - intros r r'.
    rewrite (bind_Returns _ _ _ _ _ (run_accessor_spec r _ _ _ H)).
    rewrite (run_accessor_spec r' a (set_value true e)) by apply objects_put.
    now rewrite put_put.
  - apply acknowledged_destroyed_silently. apply acknowledged_put.
Qed.

(** X4. A copy starts with its flag unset, whatever the flag of the
    object copied from: it is a new object with the same code and
    message, and destroying it unread writes the report when the code is
    not success. *)
Theorem copy_carries_obligation (other : addr) (o : SensorError)
    (w : World) :
  objects w !! other = Some o ->
  exists w' : World,
    SensorError_copy_ctor other w = Returns (next_addr w) w' /\
    objects w !! next_addr w = None /\
    objects w' !! next_addr w = Some (copied o) /\
    acknowledged (next_addr w) w' = Some false /\
    (m_code o ≠ 0 ->
       SensorError_dtor (next_addr w) w' =
         if CEPTON_ENABLE_EXCEPTIONS
         then Terminated (report not_checked_report w')
         else Returns tt (remove (next_addr w)
                            (report not_checked_report w'))).
Proof.
  intros H. eexists. split; [exact (SensorError_copy_ctor_spec other o w H)|].
  split; [apply next_addr_unallocated|].
  split; [apply objects_put|]. split; [apply acknowledged_put|].
  intros Hc. apply dtor_unchecked with (copied o); [apply objects_put|].
  simpl. apply Z.eqb_neq in Hc. now rewrite Hc.
Qed.

Lemma create_message_nul_free (code_ : Z) (msg_ : string) :
  nul_free (create_message code_ msg_) = true.
Proof.
  unfold create_message. destruct (code_ =? 0); [reflexivity|].
  destruct (first_is_nul msg_); [apply c_str_nul_free|].
  now rewrite !nul_free_append, !c_str_nul_free.
Qed.

(** X5. What a constructor that returns has built: the code and the
    message as given (the message read as a C string), the flag unset,
    and a [what] text that is empty for success, whatever the message,
    and otherwise the name of the code, followed by a colon, a space and
    the message when there is one. *)
Theorem ctor_builds (code_ : Z) (msg_ : string) (w w' : World) (a : addr) :
  SensorError_ctor code_ msg_ w = Returns a w' ->
  objects w !! a = None /\
  exists e : SensorError,
    objects w' !! a = Some e /\
    m_code e = code_ /\ m_msg e = c_str msg_ /\
    value (m_used e) = false /\
    what e =
      (if (code_ =? 0)%Z then ""
       else if first_is_nul msg_ then c_str (get_error_code_name code_)
       else c_str (get_error_code_name code_) ++ ": " ++ c_str msg_)%string.
Proof.
  rewrite SensorError_ctor_spec. cbv zeta. intros H.
  assert (Ha : a = next_addr w /\
               objects w' !! a = Some (constructed code_ msg_)).
  { destruct (first_is_nul (get_error_code_name code_));
      [destruct CEPTON_ENABLE_EXCEPTIONS|]; try discriminate;
      injection H as <- <-; (split; [reflexivity|apply objects_put]). }
  destruct Ha as [-> Hl]. split; [apply next_addr_unallocated|].
  exists (constructed code_ msg_). repeat split; try assumption.
  simpl. rewrite c_str_id by apply create_message_nul_free. reflexivity.
Qed.

End Obligation.

(** ** More on the context wrapper *)

Section WrapperUse.

Context {sdk : Sdk} {calls : SdkCalls sdk}.

Lemma wrapper_assign_named (this : SensorErrorWrapper) (error_ : addr)
    (e t : SensorError) (w : World) :
  objects w !! error_ = Some e ->
  objects (put error_ (set_value true e) w) !! error this = Some t ->
  first_is_nul (get_error_code_name (m_code e)) = false ->
  SensorErrorWrapper_assign this error_ w =
    Returns tt (put (error this) (assigned t (wrapped_error this e))
                  (put error_ (set_value true e) w)).
Proof.
  intros He Ht Hn.
  rewrite (SensorErrorWrapper_assign_spec this error_ e t w He Ht).
  cbv zeta. now rewrite Hn.
Qed.

(** X6. [w = e] leaves no temporary behind and touches nothing else:
    the store holds the same objects as before, every object other than
    [e] and the error of [w] is as it was, the library is not called, and
    nothing is written when the code of [e] has a name. *)
Theorem wrapper_assign_frame (this : SensorErrorWrapper) (error_ : addr)
    (e t : SensorError) (w : World) :
  objects w !! error_ = Some e ->
  objects w !! error this = Some t ->
  match SensorErrorWrapper_assign this error_ w with
  | Returns _ w' =>
      dom (objects w') = dom (objects w) /\
      (forall b : addr,
         b ≠ error_ -> b ≠ error this -> objects w' !! b = objects w !! b) /\
      driver w' = driver w /\
      (c_str (get_error_code_name (m_code e)) ≠ ""%string ->
         stderr w' = stderr w)
  | Terminated _ =>
      CEPTON_ENABLE_EXCEPTIONS = true /\
      c_str (get_error_code_name (m_code e)) = ""%string
  | Undefined => False
  end.
Proof.
  intros He Ht.
  destruct (wrapper_target this error_ e t w He Ht) as (t' & Ht' & _).
  rewrite (SensorErrorWrapper_assign_spec this error_ e t' w He Ht').
  cbv zeta.
  set (w1 := put error_ (set_value true e) w) in *.
  set (w2 := put (error this) (assigned t' (wrapped_error this e)) w1).
  assert (Hdom : dom (objects w2) = dom (objects w)).
  { unfold w2. rewrite (dom_put _ _ _ _ Ht'). unfold w1.
    now rewrite (dom_put _ _ _ _ He). }
  assert (Hother : forall b : addr,
            b ≠ error_ -> b ≠ error this ->
            objects w2 !! b = objects w !! b).
  { intros b H1 H2. unfold w2, w1.
    now rewrite !objects_put_ne by congruence. }
  pose proof (first_is_nul_c_str (get_error_code_name (m_code e))) as Hn.
  destruct (first_is_nul (get_error_code_name (m_code e)));
    [destruct CEPTON_ENABLE_EXCEPTIONS|].
  - split; [reflexivity|now apply Hn].
  - repeat split; try assumption. intros Hne. destruct Hne. now apply Hn.
  - repeat split; assumption.
Qed.

(** X7. The obligation moves into the wrapper: a wrapper whose error has
    its flag unset, assigned an unread failure held elsewhere, holds the
    failure with the flag unset, so that destroying the wrapper's error
    unread writes the report, while the error assigned from is
    discharged. *)
Theorem wrapper_carries_obligation (this : SensorErrorWrapper)
    (error_ : addr) (e t : SensorError) (w : World) :
  objects w !! error_ = Some e ->
  objects w !! error this = Some t ->
  error_ ≠ error this ->
  value (m_used t) = false ->
  m_code e ≠ 0 ->
  first_is_nul (get_error_code_name (m_code e)) = false ->
  exists w' : World,
    SensorErrorWrapper_assign this error_ w = Returns tt w' /\
    acknowledged (error this) w' = Some false /\
    acknowledged error_ w' = Some true /\
    SensorError_dtor (error this) w' =
      if CEPTON_ENABLE_EXCEPTIONS
      then Terminated (report not_checked_report w')
      else Returns tt (remove (error this) (report not_checked_report w')).
Proof.
  intros He Ht Hne Hv Hc Hn.
  assert (Ht' : objects (put error_ (set_value true e) w) !! error this
                = Some t) by now rewrite objects_put_ne.
  eexists. split; [exact (wrapper_assign_named this error_ e t w He Ht' Hn)|].
  split; [rewrite acknowledged_put; simpl; now f_equal|].
  split; [now rewrite acknowledged_put_ne, acknowledged_put by congruence|].
  apply dtor_unchecked with (assigned t (wrapped_error this e));
    [apply objects_put|].
  unfold wrapped_error. apply Z.eqb_neq in Hc. rewrite Hc. simpl.
  now rewrite Hc, Hv.
Qed.

(** X8. Testing the wrapper after an assignment, as in [w = e; if (w)],
    tells whether [e] was a failure and discharges the wrapper's error:
    it is then destroyed without a report. *)
Theorem wrapper_check_discharges (this : SensorErrorWrapper)
    (error_ : addr) (e t : SensorError) (w : World) :
  objects w !! error_ = Some e ->
  objects w !! error this = Some t ->
  first_is_nul (get_error_code_name (m_code e)) = false ->
  exists w' : World,
    (SensorErrorWrapper_assign this error_;;
     SensorErrorWrapper_to_bool this) w
      = Returns (negb (m_code e =? 0)) w' /\
    acknowledged (error this) w' = Some true /\
    destroyed_silently (error this) w'.
Proof.
  intros He Ht Hn.
  destruct (wrapper_target this error_ e t w He Ht) as (t' & Ht' & _).
  eexists. split; [|split].
  - rewrite (bind_Returns _ _ _ _ _
               (wrapper_assign_named this error_ e t' w He Ht' Hn)).
    unfold SensorErrorWrapper_to_bool.
    rewrite (to_bool_spec _ _ _ (objects_put _ _ _)).
    assert (Hz : (m_code (assigned t' (wrapped_error this e)) =? 0)
                 = (m_code e =? 0)).
    { unfold wrapped_error.
      destruct (m_code e =? 0) eqn:E; simpl; [reflexivity|exact E]. }
    now rewrite Hz.
  - apply acknowledged_put.
  - apply acknowledged_destroyed_silently, acknowledged_put.
Qed.

(** X9. Wrappers nest: assigning a failure to an inner wrapper and the
    inner wrapper to an outer one leaves the outer wrapper with the code
    of the failure and with the message made of the outer context, the
    inner context and the message of the failure, each followed by a
    newline and a tab. *)
Theorem wrapper_chain (outer inner : SensorErrorWrapper) (error_ : addr)
    (e t1 t2 : SensorError) (w : World) :
  objects w !! error_ = Some e ->
  objects w !! error inner = Some t1 ->
  objects w !! error outer = Some t2 ->
  error_ ≠ error inner -> error_ ≠ error outer ->
  error inner ≠ error outer ->
  m_code e ≠ 0 ->
  first_is_nul (get_error_code_name (m_code e)) = false ->
  nul_free (context inner) = true -> nul_free (context outer) = true ->
  msg_is_c_string e ->
  exists (w' : World) (n : SensorError),
    (SensorErrorWrapper_assign inner error_;;
     SensorErrorWrapper_assign outer
       (SensorErrorWrapper_to_SensorError inner)) w = Returns tt w' /\
    objects w' !! error outer = Some n /\
    m_code n = m_code e /\
    m_msg n = (context outer ++ newline ++ tab ++ context inner
                 ++ newline ++ tab ++ m_msg e)%string.
Proof.
  intros He H1 H2 Hei Heo Hio Hc Hn Hci Hco Hm.
  assert (Hz : (m_code e =? 0) = false) by now apply Z.eqb_neq.
  assert (H1' : objects (put error_ (set_value true e) w) !! error inner
                = Some t1) by now rewrite objects_put_ne.
  rewrite (bind_Returns _ _ _ _ _
             (wrapper_assign_named inner error_ e t1 w He H1' Hn)).
  unfold SensorErrorWrapper_to_SensorError.
  set (n1 := assigned t1 (wrapped_error inner e)).
  set (w1 := put (error inner) n1 (put error_ (set_value true e) w)).
  assert (Hcode : m_code n1 = m_code e).
  { unfold n1, wrapped_error. now rewrite Hz. }
  assert (Hmsg : m_msg n1 = wrapped inner e).
  { unfold n1, wrapped_error. rewrite Hz. simpl.
    now apply wrapped_is_c_string. }
  assert (Hl1 : objects w1 !! error inner = Some n1) by apply objects_put.
  assert (Hl2 : objects (put (error inner) (set_value true n1) w1)
                  !! error outer = Some t2).
  { unfold w1. now rewrite !objects_put_ne by congruence. }
  assert (Hn1 : first_is_nul (get_error_code_name (m_code n1)) = false)
    by now rewrite Hcode.
  rewrite (wrapper_assign_named outer (error inner) n1 t2 w1 Hl1 Hl2 Hn1).
  eexists. eexists. split; [reflexivity|]. split; [apply objects_put|].
  unfold wrapped_error. rewrite Hcode, Hz. simpl.
  split; [reflexivity|].
  assert (Hw : nul_free (wrapped outer n1) = true).
  { unfold wrapped. rewrite Hmsg. unfold wrapped.
    rewrite !nul_free_append, Hco, Hci, Hm. reflexivity. }
  rewrite (c_str_id _ Hw). unfold wrapped. rewrite Hmsg. reflexivity.
Qed.

(** X10. A new wrapper holds a success error with an empty message, in
    an object of its own, and keeps the context read as a C string; it
    converts to false, and its error is destroyed without a report. *)
Theorem wrapper_ctor_holds_success (context_ : string) (w : World) :
  first_is_nul (get_error_code_name CEPTON_SUCCESS) = false ->
  exists (this : SensorErrorWrapper) (w' : World) (e : SensorError),
    SensorErrorWrapper_ctor context_ w = Returns this w' /\
    context this = c_str context_ /\
    objects w !! error this = None /\
    objects w' !! error this = Some e /\
    m_code e = CEPTON_SUCCESS /\ m_msg e = ""%string /\
    what e = ""%string /\
    SensorErrorWrapper_to_bool this w'
      = Returns false (put (error this) (set_value true e) w') /\
    destroyed_silently (error this) w'.
Proof.
  intros Hn.
  exists {| context := c_str context_; error := next_addr w |}.
  exists (put (next_addr w) (constructed CEPTON_SUCCESS "") w).
  exists (constructed CEPTON_SUCCESS "").
  split.
  { unfold SensorErrorWrapper_ctor, SensorError_ctor_default,
      SensorError_ctor_code.
    unfold mbind at 1, M_bind. rewrite SensorError_ctor_spec. cbv zeta.
    now rewrite Hn. }
  simpl. split; [reflexivity|]. split; [apply next_addr_unallocated|].
  split; [apply objects_put|]. repeat split.
  - unfold SensorErrorWrapper_to_bool. simpl.
    now rewrite (to_bool_spec _ _ _ (objects_put _ _ _)).
  - apply dtor_checked with (constructed CEPTON_SUCCESS "");
      [apply objects_put|reflexivity].
Qed.

End WrapperUse.

(** ** More on capture replay and the library calls *)

Section Calls.

Context {sdk : Sdk} {calls : SdkCalls sdk}.

Lemma binary_round_aux_sign (prec emax : Z) (sx : bool) (mx ex : Z)
    (lx : location) :
  match binary_round_aux prec emax sx mx ex lx with
  | S754_zero s | S754_infinity s | S754_finite s _ _ => s = sx
  | S754_nan => True
  end.
Proof.
  unfold binary_round_aux.
  destruct (shr_fexp prec emax mx ex lx) as [mrs' e'].
  destruct (shr_fexp prec emax _ e' loc_Exact) as [mrs'' e''].
  destruct (shr_m mrs''); [reflexivity| |exact I].
  now destruct (e'' <=? emax - prec).
Qed.

Lemma float_to_uint64_negative (x : float) :
  match x with
  | S754_zero s | S754_infinity s | S754_finite s _ _ => s = true
  | S754_nan => True
  end ->
  float_to_uint64 x = None \/ float_to_uint64 x = Some 0.
Proof.
  destruct x as [s|s| |s m e]; simpl; auto.
  intros ->. destruct (Z.shiftl (Z.pos m) e =? 0); auto.
Qed.

(** X11. [get_time] at its edges: at position zero, of either sign, it
    is the start time; at a position that is not a number or is infinite
    the conversion to an integer is undefined; at a negative position it
    is undefined or the start time, never a time before it. *)
Theorem get_time_edges (d : Driver) :
  (forall s : bool,
     get_position d = S754_zero s ->
     get_time d = Some (get_start_time d mod 2 ^ 64)) /\
  (get_position d = S754_nan -> get_time d = None) /\
  (forall s : bool, get_position d = S754_infinity s -> get_time d = None) /\
  (forall (m : positive) (e : Z),
     get_position d = S754_finite true m e ->
     get_time d = None \/ get_time d = Some (get_start_time d mod 2 ^ 64)).
Proof.
  unfold get_time. repeat split.
  - intros s ->. simpl. unfold uint64_add. now rewrite Z.add_0_r.
  - now intros ->.
  - now intros s ->.
  - intros m e ->.
    destruct (float_to_uint64_negative (fmul f1e6 (S754_finite true m e)))
      as [H|H].
    + unfold fmul, f1e6, SFmul. simpl xorb.
      apply (binary_round_aux_sign 24 128 true).
    + left. now rewrite H.
    + right. rewrite H. simpl. unfold uint64_add. now rewrite Z.add_0_r.
Qed.

Lemma library_spec (f : Driver -> Driver) (w : World) :
  (d ← get_driver; put_driver (f d);; get_error) w =
    let '(code_, msg_, d') := cepton_sdk_get_error (f (driver w)) in
    SensorError_ctor code_ msg_ (with_driver d' w).
Proof.
  unfold get_error, mbind, M_bind, get_driver, put_driver. simpl.
  now destruct (cepton_sdk_get_error (f (driver w))) as [[c m] d'].
Qed.

Lemma run_call_spec (c : Call) (w : World) (code_ : Z) (msg_ : string)
    (d' : Driver) :
  error_after c w = (code_, msg_, d') ->
  run_call c w = SensorError_ctor code_ msg_ (with_driver d' w).
Proof.
  unfold error_after. intros H.
  destruct c; simpl in *;
    unfold deinitialize, set_control_flags, set_port, unlisten_image_frames,
      unlisten_network_packets, clear, open, close, seek, seek_relative,
      set_enable_loop, set_speed, resume_blocking_once, resume_blocking,
      resume, pause; rewrite library_spec; cbv zeta; now rewrite H.
Qed.

Lemma run_call_named (c : Call) (w : World) (code_ : Z) (msg_ : string)
    (d' : Driver) :
  error_after c w = (code_, msg_, d') ->
  first_is_nul (get_error_code_name code_) = false ->
  run_call c w =
    Returns (next_addr w)
      (put (next_addr w) (constructed code_ msg_) (with_driver d' w)).
Proof.
  intros H Hn. rewrite (run_call_spec c w code_ msg_ d' H).
  rewrite SensorError_ctor_spec. cbv zeta. now rewrite Hn.
Qed.

(** X12. Each wrapper of a library call returns, in a new object, an
    error with its flag unset that holds the code and the message the
    library reports after the call; it touches no other object and
    writes nothing. Dropping this error unread writes the report exactly
    when the call failed. *)
Theorem unchecked_call_is_reported (c : Call) (w : World) (code_ : Z)
    (msg_ : string) (d' : Driver) :
  error_after c w = (code_, msg_, d') ->
  first_is_nul (get_error_code_name code_) = false ->
  let a := next_addr w in
  let w' := put a (constructed code_ msg_) (with_driver d' w) in
  run_call c w = Returns a w' /\
  objects w !! a = None /\
  (a ← run_call c; SensorError_dtor a) w =
    if code_ =? 0 then Returns tt (with_driver d' w)
    else if CEPTON_ENABLE_EXCEPTIONS
    then Terminated (report not_checked_report w')
    else Returns tt (report not_checked_report (with_driver d' w)).
Proof.
  intros H Hn a w'.
  pose proof (run_call_named c w code_ msg_ d' H Hn) as Hr.
  split; [exact Hr|]. split; [apply next_addr_unallocated|].
  rewrite (bind_Returns _ _ _ _ _ Hr). fold a w'.
  assert (Hl : objects w' !! a = Some (constructed code_ msg_))
    by apply objects_put.
  assert (Hrm : remove a w' = with_driver d' w).
  { apply (remove_put_fresh a _ (with_driver d' w)).
    exact (next_addr_unallocated w). }
  destruct (code_ =? 0) eqn:E.
  - rewrite (dtor_checked a _ w' Hl) by (simpl; now rewrite E).
    now rewrite Hrm.
  - rewrite (dtor_unchecked a _ w' Hl) by (simpl; now rewrite E).
    destruct CEPTON_ENABLE_EXCEPTIONS; [reflexivity|].
    now rewrite remove_report, Hrm.
Qed.

(** X13. A call whose error is tested and then dropped leaves no trace
    in the store and writes nothing, whether it failed or not; the test
    tells whether it failed. *)
Theorem checked_call_is_silent (c : Call) (w : World) (code_ : Z)
    (msg_ : string) (d' : Driver) :
  error_after c w = (code_, msg_, d') ->
  first_is_nul (get_error_code_name code_) = false ->
  (a ← run_call c; b ← to_bool a; SensorError_dtor a;; mret b) w =
    Returns (negb (code_ =? 0)) (with_driver d' w).
Proof.
  intros H Hn.
  rewrite (bind_Returns _ _ _ _ _ (run_call_named c w code_ msg_ d' H Hn)).
  rewrite (bind_Returns _ _ _ _ _ (to_bool_spec _ _ _ (objects_put _ _ _))).
  rewrite put_put.
  rewrite (bind_Returns _ _ _ _ _
             (dtor_checked _ (set_value true (constructed code_ msg_)) _
                (objects_put _ _ _) (orb_true_r _))).
  rewrite (remove_put_fresh _ _ (with_driver d' w))
    by exact (next_addr_unallocated w).
  reflexivity.
Qed.

End Calls.

(** ** Assignment and the obligation of the object assigned to *)

Section Assignment.

Context {sdk : Sdk}.

(** X14. An assignment never reports: an unread failure that is
    overwritten by a success is lost, where destroying it would have
    written the report; nothing is written, and the object is afterwards
    destroyed without a report. *)
Theorem assignment_drops_old_obligation (this other : addr)
    (t o : SensorError) (w : World) :
  objects w !! this = Some t ->
  objects w !! other = Some o ->
  this ≠ other ->
  m_code t ≠ 0 -> value (m_used t) = false ->
  m_code o = 0 ->
  ¬ destroyed_silently this w /\
  exists w' : World,
    SensorError_copy_assign this other w = Returns tt w' /\
    stderr w' = stderr w /\
    destroyed_silently this w'.
Proof.
  intros Ht Ho Hne Hc Hv Hz. split.
  - unfold destroyed_silently.
    rewrite (dtor_unchecked this t w Ht) by now apply unchecked_iff.
    destruct CEPTON_ENABLE_EXCEPTIONS; [discriminate|].
    intros E. apply (report_changes_stderr not_checked_report this w).
    congruence.
  - eexists. split;
      [exact (SensorError_copy_assign_spec this other t o w Ht Ho)|].
    split; [reflexivity|].
    apply dtor_checked with (assigned t o).
    + now rewrite objects_put_ne, objects_put by congruence.
    + simpl. now rewrite Hz.
Qed.

(** X15. Assigning an error to itself sets its flag and changes nothing
    else, so that it is then destroyed without a report. *)
Theorem self_assignment_acknowledges (a : addr) (e : SensorError)
    (w : World) :
  objects w !! a = Some e ->
  SensorError_copy_assign a a w = Returns tt (put a (set_value true e) w) /\
  destroyed_silently a (put a (set_value true e) w).
Proof.
  intros H. split.
  - rewrite (SensorError_copy_assign_spec a a e e w H H).
    now rewrite put_put.
  - apply acknowledged_destroyed_silently, acknowledged_put.
Qed.

End Assignment.

(** ** The further properties on the test double *)

Lemma messages_are_c_strings_witness :
  match @run_ops (test_sdk false) (test_calls false)
          [OpCtor (-1) "boom"; OpCopyCtor 0%nat; OpCall (Seek f1e6);
           OpDtor 0%nat]
          (test_world0 false)
  with
  | Returns _ w' | Terminated w' => store_wf w'
  | Undefined => True
  end.
Proof.
  apply (@messages_are_c_strings (test_sdk false) (test_calls false)).
  reflexivity.
Defined.

Lemma acknowledged_is_kept_witness :
  match @run_ops (test_sdk false) (test_calls false)
          [OpCopyAssign 1%nat 0%nat; OpAccess Code 0%nat; OpDtor 0%nat]
          (test_world false)
  with
  | Returns _ w' | Terminated w' => acknowledged 1%nat w' = Some true
  | Undefined => True
  end.
Proof.
  apply (@acknowledged_is_kept (test_sdk false) (test_calls false) 1%nat).
  - reflexivity.
  - repeat constructor; simpl; try tauto. discriminate.
Defined.

Lemma accessors_only_set_flag_witness :
  let w' := put 0%nat (set_value true test_unchecked) (test_world false) in
  @ignore (test_sdk false) 0%nat (test_world false) = Returns tt w' /\
  @name (test_sdk false) 0%nat (test_world false)
    = Returns "CEPTON_ERROR_GENERIC"%string w' /\
  @to_SensorErrorCode (test_sdk false) 0%nat (test_world false)
    = Returns (-1) w' /\
  (forall r : Accessor, run_accessor r 0%nat (test_world false)
                        = Returns tt w') /\
  (forall r r' : Accessor,
     (run_accessor r 0%nat;; run_accessor r' 0%nat) (test_world false)
       = Returns tt w') /\
  destroyed_silently 0%nat w'.
Proof.
  apply (@accessors_only_set_flag (test_sdk false) 0%nat test_unchecked
           (test_world false)).
  reflexivity.
Defined.

Lemma copy_carries_obligation_witness :
  exists w' : World,
    @SensorError_copy_ctor (test_sdk false) 1%nat (test_world false)
      = Returns 2%nat w' /\
    objects (test_world false) !! 2%nat = None /\
    objects w' !! 2%nat = Some (copied test_checked) /\
    acknowledged 2%nat w' = Some false /\
    (-8 ≠ 0 ->
       SensorError_dtor 2%nat w' =
         Returns tt (remove 2%nat
                       (report (@not_checked_report (test_sdk false)) w'))).
Proof.
  apply (@copy_carries_obligation (test_sdk false) 1%nat test_checked
           (test_world false)).
  reflexivity.
Defined.

Lemma ctor_builds_witness :
  objects (test_world false) !! 2%nat = None /\
  exists e : SensorError,
    objects (put 2%nat (@constructed (test_sdk false) (-1) "boom")
               (test_world false)) !! 2%nat = Some e /\
    m_code e = -1 /\ m_msg e = "boom"%string /\
    value (m_used e) = false /\
    what e = "CEPTON_ERROR_GENERIC: boom"%string.
Proof.
  apply (@ctor_builds (test_sdk false) (-1) "boom" (test_world false)).
  reflexivity.
Defined.

Lemma wrapper_assign_frame_witness :
  match @SensorErrorWrapper_assign (test_sdk true)
          {| context := "replay"; error := 1%nat |} 0%nat (test_world3 true)
  with
  | Returns _ w' =>
      dom (objects w') = dom (objects (test_world3 true)) /\
      (forall b : addr,
         b ≠ 0%nat -> b ≠ 1%nat ->
         objects w' !! b = objects (test_world3 true) !! b) /\
      driver w' = driver (test_world3 true) /\
      ("CEPTON_ERROR_GENERIC"%string ≠ ""%string ->
         stderr w' = stderr (test_world3 true))
  | Terminated _ => True
  | Undefined => False
  end.
Proof.
  pose proof (@wrapper_assign_frame (test_sdk true)
                {| context := "replay"; error := 1%nat |} 0%nat
                test_unchecked test_checked (test_world3 true)
                eq_refl eq_refl) as H.
  destruct (@SensorErrorWrapper_assign (test_sdk true) _ 0%nat
              (test_world3 true)); [exact H|exact I|exact H].
Defined.

Lemma wrapper_carries_obligation_witness :
  exists w' : World,
    @SensorErrorWrapper_assign (test_sdk false)
      {| context := "replay"; error := 0%nat |} 1%nat (test_world false)
      = Returns tt w' /\
    acknowledged 0%nat w' = Some false /\
    acknowledged 1%nat w' = Some true /\
    SensorError_dtor 0%nat w' =
      Returns tt (remove 0%nat
                    (report (@not_checked_report (test_sdk false)) w')).
Proof.
  apply (@wrapper_carries_obligation (test_sdk false)
           {| context := "replay"; error := 0%nat |} 1%nat test_checked
           test_unchecked (test_world false));
    try reflexivity; discriminate.
Defined.

Lemma wrapper_check_discharges_witness :
  exists w' : World,
    (@SensorErrorWrapper_assign (test_sdk false)
       {| context := "replay"; error := 1%nat |} 0%nat;;
     SensorErrorWrapper_to_bool {| context := "replay"; error := 1%nat |})
      (test_world false) = Returns true w' /\
    acknowledged 1%nat w' = Some true /\
    destroyed_silently 1%nat w'.
Proof.
  apply (@wrapper_check_discharges (test_sdk false)
           {| context := "replay"; error := 1%nat |} 0%nat test_unchecked
           test_checked (test_world false)); reflexivity.
Defined.

Lemma wrapper_chain_witness :
  exists (w' : World) (n : SensorError),
    (@SensorErrorWrapper_assign (test_sdk false)
       {| context := "seek"; error := 1%nat |} 0%nat;;
     SensorErrorWrapper_assign {| context := "replay"; error := 2%nat |}
       (SensorErrorWrapper_to_SensorError
          {| context := "seek"; error := 1%nat |}))
      (test_world3 false) = Returns tt w' /\
    objects w' !! 2%nat = Some n /\
    m_code n = -1 /\
    m_msg n = ("replay" ++ newline ++ tab ++ "seek" ++ newline ++ tab
                 ++ "boom")%string.
Proof.
  apply (@wrapper_chain (test_sdk false)
           {| context := "replay"; error := 2%nat |}
           {| context := "seek"; error := 1%nat |} 0%nat
           test_unchecked test_checked test_success (test_world3 false));
    try reflexivity; discriminate.
Defined.

Lemma wrapper_ctor_holds_success_witness :
  exists (this : SensorErrorWrapper) (w' : World) (e : SensorError),
    @SensorErrorWrapper_ctor (test_sdk true) "replay" (test_world true)
      = Returns this w' /\
    context this = "replay"%string /\
    objects (test_world true) !! error this = None /\
    objects w' !! error this = Some e /\
    m_code e = CEPTON_SUCCESS /\ m_msg e = ""%string /\
    what e = ""%string /\
    SensorErrorWrapper_to_bool this w'
      = Returns false (put (error this) (set_value true e) w') /\
    destroyed_silently (error this) w'.
Proof.
  apply (@wrapper_ctor_holds_success (test_sdk true) "replay"
           (test_world true)).
  reflexivity.
Defined.

Lemma get_time_edges_witness :
  @get_time (test_sdk false) test_replay_start
    = Some (1600000000000000 mod 2 ^ 64).
Proof.
  apply (proj1 (@get_time_edges (test_sdk false) test_replay_start) false).
  reflexivity.
Defined.

Lemma unchecked_call_is_reported_witness :
  let w := test_world false in
  let w' := put 2%nat (@constructed (test_sdk false) (-8) "Invalid position!")
              w in
  @run_call (test_sdk false) (test_calls false) (SeekRelative f1e6) w
    = Returns 2%nat w' /\
  objects w !! 2%nat = None /\
  (a ← @run_call (test_sdk false) (test_calls false) (SeekRelative f1e6);
   SensorError_dtor a) w
    = Returns tt (report (@not_checked_report (test_sdk false)) w).
Proof.
  apply (@unchecked_call_is_reported (test_sdk false) (test_calls false)
           (SeekRelative f1e6) (test_world false) (-8) "Invalid position!"
           (replay_fail 0 "" test_replay));
    reflexivity.
Defined.

Lemma checked_call_is_silent_witness :
  (a ← @run_call (test_sdk false) (test_calls false)
         (ResumeBlocking (S754_finite true 8388608 (-23)));
   b ← to_bool a; SensorError_dtor a;; mret b) (test_world false)
    = Returns true (test_world false).
Proof.
  apply (@checked_call_is_silent (test_sdk false) (test_calls false)
           (ResumeBlocking (S754_finite true 8388608 (-23)))
           (test_world false) (-8) "Negative duration!"
           (replay_fail 0 "" test_replay));
    reflexivity.
Defined.

Lemma assignment_drops_old_obligation_witness :
  ¬ destroyed_silently 0%nat (test_world3 false) /\
  exists w' : World,
    @SensorError_copy_assign (test_sdk false) 0%nat 2%nat (test_world3 false)
      = Returns tt w' /\
    stderr w' = stderr (test_world3 false) /\
    destroyed_silently 0%nat w'.
Proof.
  apply (@assignment_drops_old_obligation (test_sdk false) 0%nat 2%nat
           test_unchecked test_success (test_world3 false));
    try reflexivity; discriminate.
Defined.

Lemma self_assignment_acknowledges_witness :
  let w' := put 0%nat (set_value true test_unchecked) (test_world false) in
  @SensorError_copy_assign (test_sdk false) 0%nat 0%nat (test_world false)
    = Returns tt w' /\
  destroyed_silently 0%nat w'.
Proof.
  apply (@self_assignment_acknowledges (test_sdk false) 0%nat test_unchecked
           (test_world false)).
  reflexivity.
Defined.
